(** * Per-read median background normalisation of a WFC3/IR IMA ramp

    Shallow embedding of the normalisation cell of
    [Test_notebooks/nonlinear_bkg.ipynb] ("Remove Median background per
    read from the IMA"):

<<
    stats_region =[[5,1014], [5,1014]]
    slx = slice(stats_region[0][0], stats_region[0][1])
    sly = slice(stats_region[1][0], stats_region[1][1])

    total_countrate = np.median(ima['SCI',1].data[sly, slx])

    for i in range(ima[0].header['NSAMP'] -1):
        med = np.median(ima['SCI',i+1].data[sly, slx])
        ima['SCI',i+1].data += total_countrate - med
        print('%s, [SCI,%d], median_bkg: %.2f' %(raw_file, i+1, med))
>>

    Pixel values are modelled with exact arithmetic: a pixel is either a
    rational number or the not-a-number value that [np.median] returns for
    an empty or NaN-containing selection.  Rounding and infinities are not
    part of the model: the arrays of an IMA file hold 32-bit floats, whose
    sums and differences are rounded to 24 significant bits, so [num_add],
    [num_sub] and [np_mean] give the value the code computes only where
    that value needs no rounding.  The statements below are therefore of
    three kinds: those that use no law of arithmetic (which read is
    touched, what is printed, the code's own expression [x + (total -
    med)], NaN); those that use only what rounded arithmetic keeps
    ([x - x = 0], [x + 0 = x], adding a scalar does not reverse an order,
    a mean of two lies between them); and those that assert a numeric
    outcome, which carry the hypothesis [on_grid] under which every
    operation of the cell is exact in 32-bit floats as well. *)

From Stdlib Require Import ZArith QArith Qcanon Lia Sorted Ascii.
From stdpp Require Import base decidable numbers list strings gmap.

Local Open Scope Z_scope.

(** ** Pixel values *)

Inductive num : Type :=
  | Fin (q : Qc)
  | NaN.

#[global] Instance num_eq_dec : EqDecision num.
Proof. solve_decision. Defined.

Definition of_Z (z : Z) : num := Fin (Qc_of_Z z).

Definition is_nan (x : num) : bool :=
  match x with NaN => true | Fin _ => false end.

(** [x + y], [x - y]: NaN is absorbing, as in IEEE arithmetic.  The result
    is exact; the code rounds it to a 32-bit float, which changes nothing
    where the exact result is such a float ([on_grid] below). *)
Definition num_add (x y : num) : num :=
  match x, y with
  | Fin a, Fin b => Fin (a + b)%Qc
  | _, _ => NaN
  end.

Definition num_sub (x y : num) : num :=
  match x, y with
  | Fin a, Fin b => Fin (a - b)%Qc
  | _, _ => NaN
  end.

(** Mean of the two middle values of an even-sized selection. *)
Definition mean2 (x y : num) : num :=
  match x, y with
  | Fin a, Fin b => Fin ((a + b) / 2)%Qc
  | _, _ => NaN
  end.

(** Ordering used by numpy when it sorts: NaN goes last. *)
Definition num_leb (x y : num) : bool :=
  match x, y with
  | Fin a, Fin b => bool_decide (a ≤ b)%Qc
  | _, NaN => true
  | NaN, Fin _ => false
  end.

(** ** [np.median] *)

Fixpoint insert_sorted (x : num) (l : list num) : list num :=
  match l with
  | [] => [x]
  | y :: l' => if num_leb x y then x :: l else y :: insert_sorted x l'
  end.

Definition np_sort (l : list num) : list num := foldr insert_sorted [] l.

(** [np.median] of a flattened selection: NaN when the selection is empty
    or contains a NaN; otherwise the middle value of the sorted copy, or
    the mean of the two middle values when the size is even. *)
Definition np_median (a : list num) : num :=
  let sz := length a in
  let part := np_sort a in
  let index := (sz / 2)%nat in
  if existsb is_nan a then NaN
  else if (sz =? 0)%nat then NaN
  else if Nat.odd sz then nth index part NaN
  else mean2 (nth (index - 1) part NaN) (nth index part NaN).

(** ** Python slices and 2-D arrays *)

(** [slice(start, stop)] with integer bounds and step 1. *)
Record slice : Type := Slice { start : Z; stop : Z }.

(** Bound adjustment done by Python for a sequence of length [n]: a
    negative bound counts from the end, and every bound is clipped to
    [0..n].  No bound is ever rejected. *)
Definition adjust_index (n k : Z) : Z :=
  if k <? 0 then Z.max 0 (k + n) else Z.min k n.

(** [l[s]] *)
Definition getitem {A : Type} (s : slice) (l : list A) : list A :=
  let n := Z.of_nat (length l) in
  let a := adjust_index n (start s) in
  let b := adjust_index n (stop s) in
  take (Z.to_nat (b - a)) (drop (Z.to_nat a) l).

(** A 2-D image, as the list of its rows. *)
Abbreviation array := (list (list num)).

(** [data[sly, slx]]: the rows selected by [sly], each cut by [slx]. *)
Definition getitem2 (sly slx : slice) (data : array) : array :=
  getitem slx <$> getitem sly data.

(** [data += c] for a scalar [c]: every pixel of the whole array. *)
Definition iadd (data : array) (c : num) : array :=
  (fun row : list num => (fun x => num_add x c) <$> row) <$> data.

Definition shape (data : array) : list nat := length <$> data.

(** ** The statistics region *)

(** [[[x0, x1], [y0, y1]]] *)
Definition region : Type := (Z * Z) * (Z * Z).

(** The value the notebook uses: the whole 1024x1024 image minus the
    5 pixel wide overscan. *)
Definition stats_region : region := ((5, 1014), (5, 1014)).

Definition slx (sr : region) : slice := Slice (fst (fst sr)) (snd (fst sr)).
Definition sly (sr : region) : slice := Slice (fst (snd sr)) (snd (snd sr)).

(** [np.median(data[sly, slx])] *)
Definition region_values (sr : region) (data : array) : list num :=
  concat (getitem2 (sly sr) (slx sr) data).

Definition region_median (sr : region) (data : array) : num :=
  np_median (region_values sr data).

(** ** The IMA file in memory *)

(** [NSAMP] is the keyword of the primary header; [SCI] holds the data of
    the science extensions, [('SCI', k)] being element [k - 1]. *)
Record HDUList : Type := mkHDUList { NSAMP : Z; SCI : list array }.

Inductive error : Type :=
  | KeyError (extver : Z).   (* "Extension ('SCI', extver) not found." *)

Inductive result (A : Type) : Type :=
  | Ok (a : A)
  | Err (e : error).
Arguments Ok {A} a.
Arguments Err {A} e.

#[global] Instance result_ret : MRet result := fun A a => Ok a.
#[global] Instance result_bind : MBind result := fun A B f m =>
  match m with
  | Ok a => f a
  | Err e => Err e
  end.

(** [ima['SCI', k].data] *)
Definition sci (ima : HDUList) (k : Z) : result array :=
  if k <? 1 then Err (KeyError k)
  else match SCI ima !! Z.to_nat (k - 1) with
       | Some data => Ok data
       | None => Err (KeyError k)
       end.

(** [ima['SCI', k].data += c] *)
Definition sci_iadd (ima : HDUList) (k : Z) (c : num) : result HDUList :=
  data ← sci ima k;
  mret (mkHDUList (NSAMP ima) (<[Z.to_nat (k - 1) := iadd data c]> (SCI ima))).

(** ** The normalisation loop *)

(** [range(n)] *)
Definition range (n : Z) : list Z := seqZ 0 n.

Fixpoint for_loop {S : Type} (body : S -> Z -> result S) (st : S)
    (l : list Z) : result S :=
  match l with
  | [] => mret st
  | i :: l' => st' ← body st i; for_loop body st' l'
  end.

(** What [print] reports for one read: the extension version and its
    median background.  The file name and the rounding of the median to two
    decimals in the printed line are left out. *)
Abbreviation diagnostic := (Z * num)%type.

(** One iteration.  The state is the file in memory and the lines printed
    so far. *)
Definition loop_body (sr : region) (total_countrate : num)
    (st : HDUList * list diagnostic) (i : Z) : result (HDUList * list diagnostic) :=
  data ← sci st.1 (i + 1);
  let med := region_median sr data in
  ima' ← sci_iadd st.1 (i + 1) (num_sub total_countrate med);
  mret (ima', st.2 ++ [(i + 1, med)]).

(** The reference read is hard-wired: [('SCI', 1)], the last read of the
    exposure. *)
Definition reference_index : Z := 1.

(** The cell.  The region is a parameter, as the notebook invites the
    user to define another one; [stats_region] is the one it uses.  The
    only exception the cell can raise is the [KeyError] of a missing
    extension, which ends it. *)
Definition normalize (sr : region) (ima : HDUList)
    : result (HDUList * list diagnostic) :=
  data ← sci ima reference_index;
  let total_countrate := region_median sr data in
  for_loop (loop_body sr total_countrate) (ima, []) (range (NSAMP ima - 1)).

(** ** Closed form of the loop *)

(** The read after its iteration of the loop. *)
Definition corrected (sr : region) (total_countrate : num) (data : array) : array :=
  iadd data (num_sub total_countrate (region_median sr data)).

(** The lines printed for consecutive reads, the first one being
    [('SCI', k)]. *)
Fixpoint diagnostics (sr : region) (k : Z) (l : list array) : list diagnostic :=
  match l with
  | [] => []
  | data :: l' => (k, region_median sr data) :: diagnostics sr (k + 1) l'
  end.

(** The reads the loop visits: [('SCI', 1)] to [('SCI', NSAMP - 1)]. *)
Definition visited (ima : HDUList) : nat := Z.to_nat (NSAMP ima - 1).

(** The file is well formed for the loop when the reference extension and
    every extension the loop visits exist.  An IMA file, which has NSAMP
    science extensions, is. *)
Definition has_reads (ima : HDUList) : Prop :=
  (1 <= length (SCI ima))%nat /\ (visited ima <= length (SCI ima))%nat.

#[global] Instance has_reads_dec (ima : HDUList) : Decision (has_reads ima).
Proof. unfold has_reads. apply _. Defined.

(** [total_countrate], when the reference read exists. *)
Definition reference_countrate (sr : region) (ima : HDUList) : num :=
  match SCI ima with
  | data :: _ => region_median sr data
  | [] => NaN
  end.

(** The outcome of the cell on a file that has the reads it needs. *)
Definition normalized (sr : region) (ima : HDUList) : HDUList :=
  mkHDUList (NSAMP ima)
    ((corrected sr (reference_countrate sr ima) <$> take (visited ima) (SCI ima))
     ++ drop (visited ima) (SCI ima)).

Definition printed (sr : region) (ima : HDUList) : list diagnostic :=
  diagnostics sr 1 (take (visited ima) (SCI ima)).

(** [data[r][c]] *)
Definition pixel (data : array) (r c : nat) : option num :=
  row ← data !! r; row !! c.

(** An array of the same shape holding NaN everywhere. *)
Definition nan_filled (data : array) : array :=
  (fun row : list num => (fun _ => NaN) <$> row) <$> data.

#[global] Instance error_eq_dec : EqDecision error.
Proof. solve_decision. Defined.

#[global] Instance HDUList_eq_dec : EqDecision HDUList.
Proof. solve_decision. Defined.

#[global] Instance result_eq_dec {A : Type} `{EqDecision A} : EqDecision (result A).
Proof. solve_decision. Defined.

(** ** Sample files *)

Definition row3 (a b c : Z) : list num := [of_Z a; of_Z b; of_Z c].

(** 3x3 reads whose middle rows have medians 10, 6 and 12. *)
Definition read10 : array := [row3 1 2 3; row3 10 9 11; row3 4 5 6].
Definition read6 : array := [row3 0 0 0; row3 6 5 7; row3 1 1 1].
Definition read12 : array := [row3 2 2 2; row3 12 8 13; row3 3 3 3].
Definition read10' : array := [row3 2 2 2; row3 10 8 12; row3 3 3 3].
Definition read_nan : array := [row3 1 2 3; [NaN; NaN; NaN]; row3 4 5 6].

(** The middle row of a 3x3 read, and a region whose row bounds are in the
    wrong order. *)
Definition middle_row : region := ((0, 3), (1, 2)).
Definition reversed_rows : region := ((0, 3), (2, 1)).

Definition ramp_10_6 : HDUList := mkHDUList 2 [read10; read6].
Definition ramp_10_12 : HDUList := mkHDUList 2 [read10; read12].
Definition ramp_10_6_10 : HDUList := mkHDUList 3 [read10; read6; read10'].
Definition ramp_10_nan_10 : HDUList := mkHDUList 3 [read10; read_nan; read10'].

(** ** Where the arithmetic of the cell is exact *)

(** [2 ^ e] for an integer [e] of either sign. *)
Definition pow2 (e : Z) : Qc :=
  if 0 <=? e then Qc_of_Z (2 ^ e) else (/ Qc_of_Z (2 ^ (- e)))%Qc.

(** [x] is [z * 2 ^ e] for an integer [z] with [|z| <= 2 ^ 20].  A 32-bit
    float has 24 significant bits: on such values the sums, differences
    and halvings the cell performs (medians of an even selection,
    [total - med], [x + offset], and the medians of the result) all have
    at most 24 significant bits and are computed without rounding, so the
    exact arithmetic of [num_add] and [num_sub] is the arithmetic of the
    code. *)
Definition on_grid (e : Z) (x : num) : bool :=
  match x with
  | Fin q =>
      let s := (q / pow2 e)%Qc in
      Pos.eqb (Qden s) 1 && (Z.abs (Qnum s) <=? 2 ^ 20)
  | NaN => false
  end.

(** The exponent stays well inside the range of a 32-bit float. *)
Definition grid_exponent (e : Z) : bool := (-100 <=? e) && (e <=? 100).

(** The region of a read is not empty and lies on the grid. *)
Definition region_on_grid (sr : region) (e : Z) (data : array) : bool :=
  grid_exponent e
  && negb (bool_decide (region_values sr data = []))
  && forallb (on_grid e) (region_values sr data).

(** Every pixel of a read lies on the grid. *)
Definition array_on_grid (e : Z) (data : array) : bool :=
  grid_exponent e && forallb (forallb (on_grid e)) data.


(** A read with a single NaN in the middle row. *)
Definition read_one_nan : array :=
  [row3 1 2 3; [of_Z 10; NaN; of_Z 11]; row3 4 5 6].

(** ** The whole cell, and what it leaves behind when it fails *)

(** The file as the cell holds it in memory: the [CRCORR] keyword of the
    primary header beside the rest. *)
Record fits : Type := mkfits { CRCORR : string; hdul : HDUList }.

(** A loop whose body may raise.  An exception ends the loop; what the
    earlier iterations changed in memory and printed stays.  The body of
    the normalisation loop can only raise in its first statement, the
    lookup of the extension, before it changes anything. *)
Fixpoint for_loop_run {S : Type} (body : S -> Z -> result S) (st : S)
    (l : list Z) : S * option error :=
  match l with
  | [] => (st, None)
  | i :: l' =>
      match body st i with
      | Ok st' => for_loop_run body st' l'
      | Err e => (st, Some e)
      end
  end.

(** The cell from the lookup of the reference read to the update of
    [CRCORR]: the file in memory and the lines printed when the cell ends,
    and the exception that ended it, if any.  Opening the file and flushing
    it to disk are left out.
<<
    total_countrate = np.median(ima['SCI',1].data[sly, slx])
    for i in range(ima[0].header['NSAMP'] -1):
        ...
    ima[0].header['CRCORR'] ='PERFORM'
>> *)
Definition cell_29 (sr : region) (f : fits)
    : fits * list diagnostic * option error :=
  match sci (hdul f) reference_index with
  | Err e => (f, [], Some e)
  | Ok data =>
      let total_countrate := region_median sr data in
      let run := for_loop_run (loop_body sr total_countrate) (hdul f, [])
                   (range (NSAMP (hdul f) - 1)) in
      match run.2 with
      | Some e => (mkfits (CRCORR f) run.1.1, run.1.2, Some e)
      | None => (mkfits "PERFORM" run.1.1, run.1.2, None)
      end
  end.

(** Files for the edge cases: no science extension, fewer extensions than
    [NSAMP - 1], a single sample. *)
Definition no_extension : HDUList := mkHDUList 3 [].
Definition short_file : HDUList := mkHDUList 5 [read10; read6; read12].
Definition single_sample : HDUList := mkHDUList 1 [read6].

(** ** Background statistics of a calibrated image *)

(** The notebook compares the background of three FLT images:
<<
    flt1f = flt1.flatten()
    w=np.where((0. < flt1f) & (flt1f < 1.))
    flt1_mean=  np.mean(flt1f[w])
    flt1_med =np.median(flt1f[w])
    flt1_std =   np.std(flt1f[w])
>>
    The standard deviation needs a square root and is left out. *)

(** [flt.flatten()] *)
Definition flatten (data : array) : list num := concat data.

(** [x < y]: a comparison with NaN is false. *)
Definition num_ltb (x y : num) : bool :=
  match x, y with
  | Fin a, Fin b => bool_decide (a < b)%Qc
  | _, _ => false
  end.

(** [f[np.where((lo < f) & (f < hi))]]: the values strictly inside the
    window, in their order. *)
Definition window (lo hi : num) (f : list num) : list num :=
  List.filter (fun x => num_ltb lo x && num_ltb x hi) f.

(** [np.mean]: the sum over the count; NaN for an empty selection.  Exact,
    where the code rounds the partial sums and the quotient. *)
Definition np_sum (a : list num) : num := foldr num_add (Fin 0%Qc) a.

Definition np_mean (a : list num) : num :=
  match np_sum a with
  | Fin s =>
      if (length a =? 0)%nat then NaN
      else Fin (s / Qc_of_Z (Z.of_nat (length a)))%Qc
  | NaN => NaN
  end.

(** The mean and the median the notebook prints for one image. *)
Definition background (lo hi : num) (flt : array) : num * num :=
  let f := flatten flt in
  let sel := window lo hi f in
  (np_mean sel, np_median sel).

(** A value the window keeps. *)
Definition in_window (lo hi : Qc) (x : num) : Prop :=
  exists q : Qc, x = Fin q /\ (lo < q < hi)%Qc.

Definition flt_sample : array :=
  [[Fin (Qc_of_Z 1 / Qc_of_Z 4)%Qc; of_Z 3; NaN];
   [Fin (Qc_of_Z 3 / Qc_of_Z 4)%Qc; of_Z 1; of_Z 0]].

(** ** File names and files on disk *)

(** [s.split(sep)] for a one-character separator: the pieces between the
    separators, never an empty list. *)
Fixpoint split (sep : Ascii.ascii) (s : string) : list string :=
  match s with
  | EmptyString => [EmptyString]
  | String c s' =>
      if Ascii.eqb c sep then EmptyString :: split sep s'
      else match split sep s' with
           | p :: ps => String c p :: ps
           | [] => [String c EmptyString]
           end
  end.

(** [root = im.split('/')[-1]], the name under which a downloaded file is
    moved to the working directory. *)
Definition root (im : string) : string :=
  List.last (split "/"%char im) EmptyString.

Fixpoint has_slash (s : string) : bool :=
  match s with
  | EmptyString => false
  | String c s' => Ascii.eqb c "/"%char || has_slash s'
  end.

(** The working directory: file names and what the files hold. *)
Inductive os_error : Type :=
  | FileNotFoundError (path : string)
  | FileExistsError (path : string).

(** [os.rename] replaces an existing destination silently on Unix and
    raises on Windows. *)
Inductive platform : Type := Unix | Windows.

(** [os.remove(path)] *)
Definition os_remove {C : Type} (path : string) (fs : gmap string C)
    : os_error + gmap string C :=
  match fs !! path with
  | Some _ => inr (delete path fs)
  | None => inl (FileNotFoundError path)
  end.

(** [os.rename(src, dst)] *)
Definition os_rename {C : Type} (os : platform) (src dst : string)
    (fs : gmap string C) : os_error + gmap string C :=
  match fs !! src with
  | None => inl (FileNotFoundError src)
  | Some c =>
      match os, fs !! dst with
      | Windows, Some _ => inl (FileExistsError dst)
      | _, _ => inr (<[dst := c]> (delete src fs))
      end
  end.

(** Statements run in sequence: the first exception ends the cell, and the
    files are left as the statements before it made them. *)
Fixpoint run_statements {C : Type}
    (l : list (gmap string C -> os_error + gmap string C))
    (fs : gmap string C) : gmap string C * option os_error :=
  match l with
  | [] => (fs, None)
  | stmt :: l' =>
      match stmt fs with
      | inr fs' => run_statements l' fs'
      | inl e => (fs, Some e)
      end
  end.

(** The renaming at the top of the recalibration cell, before calwf3 is
    run on the RAW file:
<<
    os.rename('ibohbfb9q_ima.fits', 'ibohbfb9q_ima_orig.fits')
    os.rename('ibohbfb9q_flt.fits', 'ibohbfb9q_flt_orig.fits')
>> *)
Definition keep_originals {C : Type} (os : platform) (fs : gmap string C)
    : gmap string C * option os_error :=
  run_statements
    [os_rename os "ibohbfb9q_ima.fits" "ibohbfb9q_ima_orig.fits";
     os_rename os "ibohbfb9q_flt.fits" "ibohbfb9q_flt_orig.fits"] fs.

(** The clean-up of the last calibration cell, after calwf3 was run on the
    corrected IMA:
<<
    os.remove('ibohbfb9q_ima.fits')
    os.rename('ibohbfb9q_ima_ima.fits','ibohbfb9q_ima.fits')
    os.rename('ibohbfb9q_ima_flt.fits','ibohbfb9q_flt.fits')
>> *)
Definition clean_up {C : Type} (os : platform) (fs : gmap string C)
    : gmap string C * option os_error :=
  run_statements
    [os_remove "ibohbfb9q_ima.fits";
     os_rename os "ibohbfb9q_ima_ima.fits" "ibohbfb9q_ima.fits";
     os_rename os "ibohbfb9q_ima_flt.fits" "ibohbfb9q_flt.fits"] fs.

(** Working directories for the examples; a file is stood for by a
    number. *)
Definition after_pipeline : gmap string nat :=
  list_to_map [("ibohbfb9q_raw.fits", 0%nat); ("ibohbfb9q_ima.fits", 1%nat);
               ("ibohbfb9q_flt.fits", 2%nat)].

Definition after_second_calwf3 : gmap string nat :=
  list_to_map [("ibohbfb9q_raw.fits", 0%nat); ("ibohbfb9q_ima.fits", 3%nat);
               ("ibohbfb9q_ima_ima.fits", 4%nat);
               ("ibohbfb9q_ima_flt.fits", 5%nat)].

Definition calwf3_left_nothing : gmap string nat :=
  list_to_map [("ibohbfb9q_raw.fits", 0%nat); ("ibohbfb9q_ima.fits", 3%nat)].

(** * Properties *)

(** ** The median on small selections *)

Example np_median_odd :
  np_median [of_Z 7; of_Z 1; of_Z 3] = of_Z 3.
Proof. compute_done. Qed.

Example np_median_even :
  np_median [of_Z 7; of_Z 1; of_Z 3; of_Z 4] = Fin (Qc_of_Z 7 / Qc_of_Z 2)%Qc.
Proof. compute_done. Qed.

Example np_median_nan : np_median [of_Z 7; NaN; of_Z 3] = NaN.
Proof. reflexivity. Qed.

Example np_median_empty : np_median [] = NaN.
Proof. reflexivity. Qed.

(** ** Arithmetic on pixel values *)

Lemma num_add_0_r (x : num) : num_add x (Fin 0%Qc) = x.
Proof. destruct x as [q|]; simpl; [|done]. by rewrite Qcplus_0_r. Qed.

Lemma num_add_NaN_r (x : num) : num_add x NaN = NaN.
Proof. by destruct x. Qed.

Lemma num_sub_diag (q : Qc) : num_sub (Fin q) (Fin q) = Fin 0%Qc.
Proof. simpl. f_equal. ring. Qed.


Lemma num_leb_add (c : Qc) (x y : num) :
  num_leb (num_add x (Fin c)) (num_add y (Fin c)) = num_leb x y.
Proof.
  destruct x as [a|], y as [b|]; simpl; try done.
  apply bool_decide_ext. symmetry. apply Qcplus_le_mono_r.
Qed.



(** ** Sorting and the median *)

Section sort_fmap.
Variable f : num -> num.
Hypothesis f_leb : forall x y, num_leb (f x) (f y) = num_leb x y.


End sort_fmap.

Lemma insert_sorted_length (x : num) (l : list num) :
  length (insert_sorted x l) = S (length l).
Proof.
  induction l as [|y l IH]; simpl; [done|].
  destruct (num_leb x y); simpl; by rewrite ?IH.
Qed.

Lemma np_sort_length (l : list num) : length (np_sort l) = length l.
Proof.
  induction l as [|x l IH]; simpl; [done|].
  by rewrite insert_sorted_length; f_equal.
Qed.

Lemma insert_sorted_perm (x : num) (l : list num) : insert_sorted x l ≡ₚ x :: l.
Proof.
  induction l as [|y l IH]; simpl; [done|].
  destruct (num_leb x y); [done|]. rewrite IH. apply Permutation_swap.
Qed.

(** [np_sort] returns a rearrangement of its argument... *)
Lemma np_sort_perm (l : list num) : np_sort l ≡ₚ l.
Proof.
  induction l as [|x l IH]; simpl; [done|].
  rewrite insert_sorted_perm. by f_equiv.
Qed.

Lemma num_leb_total (x y : num) : num_leb x y = false -> num_leb y x = true.
Proof.
  destruct x as [a|], y as [b|]; simpl; try done.
  rewrite bool_decide_eq_false, bool_decide_eq_true.
  intros H. destruct (total Qcle a b); done.
Qed.

Lemma num_leb_trans (x y z : num) :
  num_leb x y = true -> num_leb y z = true -> num_leb x z = true.
Proof.
  destruct x as [a|], y as [b|], z as [c|]; simpl; try done.
  rewrite !bool_decide_eq_true. apply Qcle_trans.
Qed.

Lemma insert_sorted_sorted (x : num) (l : list num) :
  Sorted (fun a b => num_leb a b = true) l ->
  Sorted (fun a b => num_leb a b = true) (insert_sorted x l).
Proof.
  induction 1 as [|y l Hs IH Hhd]; simpl.
  - repeat constructor.
  - destruct (num_leb x y) eqn:Hxy.
    + constructor; [by constructor|by constructor].
    + constructor; [done|].
      apply num_leb_total in Hxy.
      destruct Hhd as [|z l Hyz]; simpl.
      * by constructor.
      * destruct (num_leb x z); by constructor.
Qed.

(** ... in non-decreasing order, NaN last. *)
Lemma np_sort_sorted (l : list num) :
  Sorted (fun a b => num_leb a b = true) (np_sort l).
Proof.
  induction l as [|x l IH]; simpl; [constructor|].
  by apply insert_sorted_sorted.
Qed.





(** ** Slices, regions and whole-array addition *)





Lemma shape_iadd (data : array) (c : num) : shape (iadd data c) = shape data.
Proof.
  unfold shape, iadd. rewrite <- list_fmap_compose.
  apply list_fmap_ext. intros _ row _. simpl. apply length_fmap.
Qed.

Lemma iadd_0 (data : array) : iadd data (Fin 0%Qc) = data.
Proof.
  unfold iadd. rewrite <- (list_fmap_id data) at 2.
  apply list_fmap_ext. intros _ row _. simpl.
  rewrite <- (list_fmap_id row) at 2.
  apply list_fmap_ext. intros _ x _. apply num_add_0_r.
Qed.

Lemma iadd_NaN (data : array) :
  iadd data NaN = (fun row : list num => (fun _ => NaN) <$> row) <$> data.
Proof.
  unfold iadd. apply list_fmap_ext. intros _ row _.
  apply list_fmap_ext. intros _ x _. apply num_add_NaN_r.
Qed.

(** An empty selection of rows gives an empty region, whose median is
    undefined. *)
Lemma getitem_empty {A : Type} (s : slice) (l : list A) :
  0 <= stop s <= start s -> getitem s l = [].
Proof.
  intros H. unfold getitem, adjust_index.
  destruct (Z.ltb_spec (start s) 0), (Z.ltb_spec (stop s) 0); try lia.
  replace (Z.to_nat _) with 0%nat by lia. done.
Qed.

(** Bounds are clipped, never rejected. *)
Lemma adjust_index_bounds (n k : Z) : 0 <= n -> 0 <= adjust_index n k <= n.
Proof. unfold adjust_index. destruct (Z.ltb_spec k 0); lia. Qed.

Lemma adjust_index_beyond (n k : Z) : 0 <= n <= k -> adjust_index n k = n.
Proof. unfold adjust_index. destruct (Z.ltb_spec k 0); lia. Qed.

(** A stop bound past the end selects up to the end. *)
Lemma getitem_stop_beyond {A : Type} (a b : Z) (l : list A) :
  Z.of_nat (length l) <= b ->
  getitem (Slice a b) l = getitem (Slice a (Z.of_nat (length l))) l.
Proof.
  intros Hb. unfold getitem. cbn [start stop].
  rewrite (adjust_index_beyond _ b) by lia.
  by rewrite (adjust_index_beyond _ (Z.of_nat (length l))) by lia.
Qed.

(** ** The loop in closed form *)

Lemma sci_middle (nsamp : Z) (l1 l2 : list array) (data : array) :
  sci (mkHDUList nsamp (l1 ++ data :: l2)) (Z.of_nat (length l1) + 1) = Ok data.
Proof.
  unfold sci. destruct (Z.ltb_spec (Z.of_nat (length l1) + 1) 1); [lia|].
  replace (Z.to_nat _) with (length l1) by lia.
  simpl. by rewrite list_lookup_middle.
Qed.

Lemma loop_body_middle (sr : region) (total : num) (nsamp : Z)
    (l1 l2 : list array) (data : array) (out : list diagnostic) :
  loop_body sr total (mkHDUList nsamp (l1 ++ data :: l2), out)
    (Z.of_nat (length l1))
  = Ok (mkHDUList nsamp (l1 ++ corrected sr total data :: l2),
        out ++ [(Z.of_nat (length l1) + 1, region_median sr data)]).
Proof.
  unfold loop_body, sci_iadd. cbn [fst snd].
  rewrite sci_middle. cbn [mbind result_bind mret result_ret NSAMP SCI].
  replace (Z.to_nat _) with (length l1 + 0)%nat by lia.
  by rewrite insert_app_r.
Qed.

Lemma for_loop_take (sr : region) (total : num) (nsamp : Z) (m : nat) :
  forall (l1 l2 : list array) (out : list diagnostic),
  (m <= length l2)%nat ->
  for_loop (loop_body sr total) (mkHDUList nsamp (l1 ++ l2), out)
    (seqZ (Z.of_nat (length l1)) (Z.of_nat m))
  = Ok (mkHDUList nsamp (l1 ++ (corrected sr total <$> take m l2) ++ drop m l2),
        out ++ diagnostics sr (Z.of_nat (length l1) + 1) (take m l2)).
Proof.
  induction m as [|m IH]; intros l1 l2 out Hm.
  - simpl. by rewrite drop_0, app_nil_r.
  - destruct l2 as [|data l2]; [simpl in Hm; lia|].
    rewrite seqZ_cons by lia. cbn [for_loop].
    rewrite loop_body_middle. cbn [mbind result_bind].
    replace (Z.succ (Z.of_nat (length l1)))
      with (Z.of_nat (length (l1 ++ [corrected sr total data])))
      by (rewrite length_app; simpl; lia).
    replace (Z.pred (Z.of_nat (S m))) with (Z.of_nat m) by lia.
    rewrite (cons_middle _ l1 l2), app_assoc.
    rewrite IH by (simpl in Hm; lia).
    rewrite length_app. cbn [length take drop diagnostics fmap list_fmap].
    rewrite <- !app_assoc. cbn [app].
    replace (Z.of_nat (length l1 + 1) + 1) with (Z.of_nat (length l1) + 1 + 1)
      by lia.
    done.
Qed.

(** On a file that has the reads the loop needs, the cell always runs to
    completion, with the result in closed form. *)
Lemma normalize_Ok (sr : region) (ima : HDUList) :
  has_reads ima ->
  normalize sr ima = Ok (normalized sr ima, printed sr ima).
Proof.
  intros [H1 Hn]. destruct ima as [nsamp l].
  unfold normalize, normalized, printed, visited in *.
  cbn [NSAMP SCI] in *.
  destruct l as [|ref l]; [simpl in H1; lia|].
  unfold reference_index, reference_countrate. cbn [SCI].
  change (sci _ 1) with (sci (mkHDUList nsamp ([] ++ ref :: l))
                            (Z.of_nat (length (@nil array)) + 1)).
  rewrite sci_middle. cbn [mbind result_bind app].
  unfold range.
  pose proof (for_loop_take sr (region_median sr ref) nsamp
                (Z.to_nat (nsamp - 1)) [] (ref :: l) [] Hn) as Hloop.
  cbn [length app] in Hloop.
  destruct (Z.le_gt_cases 0 (nsamp - 1)) as [Hpos|Hneg].
  - rewrite Z2Nat.id in Hloop by done. apply Hloop.
  - rewrite seqZ_nil by lia. replace (Z.to_nat (nsamp - 1)) with 0%nat by lia.
    done.
Qed.

(** ** Reading the result *)

Lemma sci_Ok (ima : HDUList) (k : Z) (data : array) :
  sci ima k = Ok data <-> 1 <= k /\ SCI ima !! Z.to_nat (k - 1) = Some data.
Proof.
  unfold sci. destruct (Z.ltb_spec k 1).
  - split; [done|lia].
  - destruct (SCI ima !! Z.to_nat (k - 1)); split; try done.
    + intros [= ->]. done.
    + by intros [_ [= ->]].
    + by intros [_ ?].
Qed.

Lemma length_normalized (sr : region) (ima : HDUList) :
  length (SCI (normalized sr ima)) = length (SCI ima).
Proof.
  unfold normalized. cbn [SCI].
  by rewrite length_app, length_fmap, <- length_app, take_drop.
Qed.

Lemma lookup_normalized_visited (sr : region) (ima : HDUList) (j : nat) :
  (j < visited ima)%nat ->
  SCI (normalized sr ima) !! j
  = corrected sr (reference_countrate sr ima) <$> SCI ima !! j.
Proof.
  intros Hj. unfold normalized. cbn [SCI].
  destruct (decide (j < length (SCI ima))%nat) as [Hlt|Hge].
  - rewrite lookup_app_l by (rewrite length_fmap, length_take; lia).
    by rewrite list_lookup_fmap, lookup_take_lt.
  - rewrite (lookup_ge_None_2 (SCI ima)) by lia.
    apply lookup_ge_None_2.
    rewrite length_app, length_fmap, <- length_app, take_drop. lia.
Qed.

Lemma lookup_normalized_beyond (sr : region) (ima : HDUList) (j : nat) :
  (visited ima <= j)%nat ->
  SCI (normalized sr ima) !! j = SCI ima !! j.
Proof.
  intros Hj. unfold normalized. cbn [SCI].
  destruct (decide (visited ima <= length (SCI ima))%nat) as [Hle|Hgt].
  - rewrite lookup_app_r by (rewrite length_fmap, length_take; lia).
    rewrite length_fmap, length_take_le, lookup_drop by done. f_equal. lia.
  - rewrite drop_ge, app_nil_r, take_ge by lia.
    rewrite (lookup_ge_None_2 (SCI ima)) by lia.
    apply lookup_ge_None_2. rewrite length_fmap. lia.
Qed.

Lemma reference_countrate_sci (sr : region) (ima : HDUList) (ref : array) :
  sci ima reference_index = Ok ref ->
  reference_countrate sr ima = region_median sr ref.
Proof.
  intros [_ Href]%sci_Ok. unfold reference_countrate.
  destruct (SCI ima) as [|ref0 l]; [done|]. by injection Href as ->.
Qed.

(** A read the loop visits is replaced by its corrected version. *)
Lemma sci_normalized_visited (sr : region) (ima : HDUList) (k : Z) (data : array) :
  1 <= k <= NSAMP ima - 1 ->
  sci ima k = Ok data ->
  sci (normalized sr ima) k = Ok (corrected sr (reference_countrate sr ima) data).
Proof.
  intros Hk [_ Hdata]%sci_Ok. apply sci_Ok. split; [lia|].
  rewrite lookup_normalized_visited by (unfold visited; lia).
  by rewrite Hdata.
Qed.

(** Every other extension is left as it was. *)
Lemma sci_normalized_beyond (sr : region) (ima : HDUList) (k : Z) :
  NSAMP ima <= k ->
  sci (normalized sr ima) k = sci ima k.
Proof.
  intros Hk. unfold sci. destruct (Z.ltb_spec k 1); [done|].
  by rewrite lookup_normalized_beyond by (unfold visited; lia).
Qed.

Lemma elem_of_diagnostics (sr : region) (l : list array) (j k : Z) (m : num) :
  (k, m) ∈ diagnostics sr j l
  <-> exists (i : nat) (data : array),
        l !! i = Some data /\ k = j + Z.of_nat i /\ m = region_median sr data.
Proof.
  revert j. induction l as [|d l IH]; intros j; cbn [diagnostics].
  - split; [by intros ?%elem_of_nil|by intros (i & data & ? & _)].
  - rewrite elem_of_cons, IH. split.
    + intros [[= -> ->]|(i & data & Hi & -> & ->)].
      * exists 0%nat, d. split; [done|]. split; [lia|done].
      * exists (S i), data. split; [done|]. split; [lia|done].
    + intros ([|i] & data & Hi & -> & ->).
      * left. simpl in Hi. injection Hi as ->. f_equal. lia.
      * right. exists i, data. split; [done|]. split; [lia|done].
Qed.

(** The printed lines are those of the visited reads. *)
Lemma elem_of_printed (sr : region) (ima : HDUList) (k : Z) (m : num) :
  (k, m) ∈ printed sr ima
  <-> exists data : array,
        1 <= k <= NSAMP ima - 1 /\ sci ima k = Ok data /\ m = region_median sr data.
Proof.
  unfold printed. rewrite elem_of_diagnostics. split.
  - intros (i & data & Hi & -> & ->).
    apply lookup_take_Some in Hi as [Hi Hlt]. unfold visited in Hlt.
    exists data. split; [lia|]. split; [|done].
    apply sci_Ok. split; [lia|]. by replace (Z.to_nat _) with i by lia.
  - intros (data & Hk & [_ Hdata]%sci_Ok & ->).
    exists (Z.to_nat (k - 1)), data. split; [|split; [lia|done]].
    apply lookup_take_Some. split; [done|]. unfold visited. lia.
Qed.

Lemma pixel_iadd (data : array) (c : num) (i j : nat) :
  pixel (iadd data c) i j = (fun x => num_add x c) <$> pixel data i j.
Proof.
  unfold pixel, iadd. rewrite list_lookup_fmap.
  destruct (data !! i) as [r|]; [|done]. simpl. apply list_lookup_fmap.
Qed.

Lemma pixel_nan_filled (data : array) (i j : nat) :
  pixel (nan_filled data) i j = (fun _ => NaN) <$> pixel data i j.
Proof.
  unfold pixel, nan_filled. rewrite list_lookup_fmap.
  destruct (data !! i) as [r|]; [|done]. simpl. apply list_lookup_fmap.
Qed.

(** ** When the cell fails *)

Lemma for_loop_app {S : Type} (body : S -> Z -> result S) (st : S)
    (l1 l2 : list Z) :
  for_loop body st (l1 ++ l2)
  = (st' ← for_loop body st l1; for_loop body st' l2).
Proof.
  revert st. induction l1 as [|i l1 IH]; intros st; [done|].
  cbn [app for_loop]. destruct (body st i) as [st'|e]; [|done].
  cbn [mbind result_bind]. apply IH.
Qed.

Lemma sci_missing (ima : HDUList) (k : Z) :
  Z.of_nat (length (SCI ima)) < k -> sci ima k = Err (KeyError k).
Proof.
  intros Hk. unfold sci. destruct (Z.ltb_spec k 1); [done|].
  by rewrite lookup_ge_None_2 by lia.
Qed.

Lemma loop_body_missing (sr : region) (total : num)
    (st : HDUList * list diagnostic) (i : Z) :
  Z.of_nat (length (SCI st.1)) < i + 1 ->
  loop_body sr total st i = Err (KeyError (i + 1)).
Proof. intros Hi. unfold loop_body. by rewrite sci_missing. Qed.

(** Without a first science extension the reference read cannot be
    fetched. *)
Lemma normalize_no_reference (sr : region) (ima : HDUList) :
  SCI ima = [] -> normalize sr ima = Err (KeyError 1).
Proof.
  intros Hnil. unfold normalize, reference_index.
  rewrite sci_missing by (rewrite Hnil; simpl; lia). done.
Qed.

(** With fewer science extensions than [NSAMP - 1] the loop stops at the
    first missing one. *)
Lemma normalize_missing_read (sr : region) (ima : HDUList) :
  (1 <= length (SCI ima) < visited ima)%nat ->
  normalize sr ima = Err (KeyError (Z.of_nat (length (SCI ima)) + 1)).
Proof.
  intros [H1 Hn]. destruct ima as [nsamp l]. unfold normalize, visited in *.
  cbn [NSAMP SCI] in *.
  destruct l as [|ref l]; [simpl in H1; lia|].
  unfold reference_index.
  change (sci _ 1) with (sci (mkHDUList nsamp ([] ++ ref :: l))
                            (Z.of_nat (length (@nil array)) + 1)).
  rewrite sci_middle. cbn [mbind result_bind app].
  set (len := length (ref :: l)) in *. unfold range.
  replace (nsamp - 1) with (Z.of_nat len + (nsamp - 1 - Z.of_nat len)) by lia.
  rewrite seqZ_app, for_loop_app by lia.
  pose proof (for_loop_take sr (region_median sr ref) nsamp len [] (ref :: l) []
                (Nat.le_refl _)) as Hloop.
  change (Z.of_nat (length (@nil array))) with 0 in Hloop.
  cbn [app] in Hloop. fold len in Hloop. rewrite Hloop.
  cbn [mbind result_bind].
  rewrite seqZ_cons by lia. cbn [for_loop].
  rewrite loop_body_missing.
  - cbn [mbind result_bind]. by rewrite Z.add_0_l.
  - cbn [fst SCI]. rewrite length_app, length_fmap, <- length_app, take_drop.
    fold len. lia.
Qed.

(** The cell succeeds exactly on the files that have the reads it needs. *)
Lemma normalize_Ok_iff (sr : region) (ima : HDUList) :
  (exists r, normalize sr ima = Ok r) <-> has_reads ima.
Proof.
  split.
  - intros [r Hr]. unfold has_reads.
    destruct (decide (1 <= length (SCI ima))%nat) as [H1|H0].
    + destruct (decide (visited ima <= length (SCI ima))%nat) as [Hn|Hn]; [done|].
      rewrite normalize_missing_read in Hr by lia. done.
    + rewrite normalize_no_reference in Hr; [done|].
      destruct (SCI ima); [done|simpl in H0; lia].
  - intros H. eexists. by apply normalize_Ok.
Qed.

(** A file with as many science extensions as its [NSAMP] keyword says has
    the reads the loop needs, provided it has any. *)
Lemma has_reads_NSAMP (ima : HDUList) :
  NSAMP ima = Z.of_nat (length (SCI ima)) -> 1 <= NSAMP ima -> has_reads ima.
Proof. unfold has_reads, visited. lia. Qed.

(** ** Medians after the correction *)





Lemma iadd_iadd_0 (data : array) (c : num) :
  iadd (iadd data c) (Fin 0%Qc) = iadd data c.
Proof. apply iadd_0. Qed.







Lemma shape_corrected (sr : region) (total : num) (data : array) :
  shape (corrected sr total data) = shape data.
Proof. apply shape_iadd. Qed.

Lemma shape_normalized (sr : region) (ima : HDUList) :
  shape <$> SCI (normalized sr ima) = shape <$> SCI ima.
Proof.
  unfold normalized. cbn [SCI]. rewrite fmap_app, <- list_fmap_compose.
  rewrite <- (take_drop (visited ima) (SCI ima)) at 3. rewrite fmap_app.
  f_equal. apply list_fmap_ext. intros _ data _. apply shape_corrected.
Qed.

(** A selection that is empty or holds nothing but NaN has no median. *)
Lemma np_median_all_nan (l : list num) :
  Forall (fun x => x = NaN) l -> np_median l = NaN.
Proof.
  intros Hl. unfold np_median. destruct Hl as [|x l -> _]; [done|]. done.
Qed.

Lemma corrected_nan (sr : region) (total : num) (data : array) :
  region_median sr data = NaN -> corrected sr total data = nan_filled data.
Proof.
  intros Hm. unfold corrected. rewrite Hm.
  replace (num_sub total NaN) with NaN by (by destruct total).
  apply iadd_NaN.
Qed.

Lemma region_values_no_rows (sr : region) (data : array) :
  0 <= snd (snd sr) <= fst (snd sr) -> region_values sr data = [].
Proof.
  intros H. unfold region_values, getitem2.
  by rewrite (getitem_empty (sly sr)).
Qed.

Lemma existsb_is_nan_false (P : num -> Prop) (l : list num) :
  ~ P NaN -> Forall P l -> existsb is_nan l = false.
Proof.
  intros HP. induction 1 as [|x l Hx _ IH]; [done|].
  cbn [existsb]. rewrite IH. by destruct x.
Qed.

(** The median of values that share a property which means keep is a value
    with that property. *)
Lemma np_median_Forall (P : num -> Prop) (l : list num) :
  ~ P NaN ->
  (forall x y, P x -> P y -> P (mean2 x y)) ->
  l <> [] ->
  Forall P l ->
  P (np_median l).
Proof.
  intros HNaN Hmean Hne Hl. unfold np_median.
  rewrite (existsb_is_nan_false P) by done.
  destruct (Nat.eqb_spec (length l) 0) as [H0|Hpos];
    [by destruct l|].
  assert (Forall P (np_sort l)) as Hs by by rewrite np_sort_perm.
  assert (forall i, (i < length l)%nat -> P (nth i (np_sort l) NaN)) as Hnth.
  { intros i Hi. apply List.Forall_nth; [done|]. by rewrite np_sort_length. }
  assert (length l / 2 < length l)%nat by (apply Nat.div_lt; lia).
  destruct (Nat.odd (length l)); [by apply Hnth|].
  apply Hmean; apply Hnth; lia.
Qed.


(** ** Reads on the grid *)

Example on_grid_integers :
  on_grid 0 (of_Z (2 ^ 20)) = true
  /\ on_grid 0 (of_Z (2 ^ 20 + 1)) = false
  /\ on_grid 0 (Fin (Qc_of_Z 1 / Qc_of_Z 2)%Qc) = false
  /\ on_grid 0 NaN = false.
Proof. repeat split; vm_compute; reflexivity. Qed.

Example on_grid_scaled :
  on_grid (-1) (Fin (Qc_of_Z 1 / Qc_of_Z 2)%Qc) = true
  /\ on_grid (-10) (Fin (Qc_of_Z 1025 / Qc_of_Z 1024)%Qc) = true
  /\ on_grid 3 (of_Z 8) = true
  /\ on_grid 3 (of_Z 4) = false
  /\ on_grid (-3) (Fin (Qc_of_Z 1 / Qc_of_Z 10)%Qc) = false.
Proof. repeat split; vm_compute; reflexivity. Qed.





(** * The claims *)

(** ** C1: medians after the correction *)




(** ** C2: the offset of each read *)

(** C2, as amended.  On a file that has the reads the loop needs, for
    every read [('SCI', k)] with [1 <= k <= NSAMP - 1], the reference read
    included, the cell measures [med = median(data[region])], reports
    [(k, med)], and replaces the read by [data + (total - med)]: every
    pixel of the whole array, inside the region or not, has the same
    scalar added to it.  Nothing is said of [('SCI', NSAMP)]. *)
Theorem C2_visited_reads_get_uniform_offset
    (sr : region) (ima : HDUList) (k : Z) (data : array) :
  has_reads ima ->
  1 <= k <= NSAMP ima - 1 ->
  sci ima k = Ok data ->
  exists (out : HDUList) (diag : list diagnostic) (data' : array),
    let total := reference_countrate sr ima in
    let med := region_median sr data in
    normalize sr ima = Ok (out, diag)
    /\ (k, med) ∈ diag
    /\ sci out k = Ok data'
    /\ data' = iadd data (num_sub total med)
    /\ forall (i j : nat) (x : num),
         pixel data i j = Some x ->
         pixel data' i j = Some (num_add x (num_sub total med)).
Proof.
  intros Hreads Hk Hdata.
  exists (normalized sr ima), (printed sr ima),
    (corrected sr (reference_countrate sr ima) data).
  cbn zeta. split; [by apply normalize_Ok|].
  split; [apply elem_of_printed; by exists data|].
  split; [by apply sci_normalized_visited|].
  split; [done|].
  intros i j x Hx. unfold corrected. by rewrite pixel_iadd, Hx.
Qed.

Lemma C2_witness :
  exists (out : HDUList) (diag : list diagnostic) (data' : array),
    let total := reference_countrate middle_row ramp_10_6_10 in
    let med := region_median middle_row read6 in
    normalize middle_row ramp_10_6_10 = Ok (out, diag)
    /\ (2, med) ∈ diag
    /\ sci out 2 = Ok data'
    /\ data' = iadd read6 (num_sub total med)
    /\ forall (i j : nat) (x : num),
         pixel read6 i j = Some x ->
         pixel data' i j = Some (num_add x (num_sub total med)).
Proof.
  apply (C2_visited_reads_get_uniform_offset middle_row ramp_10_6_10 2 read6).
  - unfold has_reads, visited. simpl. lia.
  - simpl. lia.
  - reflexivity.
Defined.

(** C2 as stated fails on the last extension: in a two-read file the
    second read is not the reference, its median 6 differs from the
    reference countrate 10, and yet the cell returns it as it was, not
    with the offset 10 - 6 added. *)
Lemma C2_last_read_gets_no_offset :
  exists (out : HDUList) (diag : list diagnostic),
    normalize middle_row ramp_10_6 = Ok (out, diag)
    /\ sci ramp_10_6 2 = Ok read6
    /\ sci out 2 = Ok read6
    /\ num_sub (reference_countrate middle_row ramp_10_6)
               (region_median middle_row read6) = of_Z 4
    /\ read6 <> iadd read6 (of_Z 4).
Proof.
  exists ramp_10_6, [(1, of_Z 10)]. repeat split; compute_done.
Qed.

(** ** C3: the three-read scenario *)

(** C3.  For every three-read file ([NSAMP = 3]) whose region medians are
    10, 6 and 10, the cell returns the first and the third read as they
    were and a second read of the same shape in which every pixel is the
    pixel of the input with 4 added, and it prints exactly
    [(1, 10); (2, 6)]; no line is printed for the third read.  The
    countrate the cell takes from [('SCI', 1)] is also the median of the
    third read. *)
Theorem C3_three_read_scenario (sr : region) (read1 read2 read3 : array) :
  region_median sr read1 = of_Z 10 ->
  region_median sr read2 = of_Z 6 ->
  region_median sr read3 = of_Z 10 ->
  exists read2' : array,
    normalize sr (mkHDUList 3 [read1; read2; read3])
    = Ok (mkHDUList 3 [read1; read2'; read3], [(1, of_Z 10); (2, of_Z 6)])
    /\ shape read2' = shape read2
    /\ (forall (i j : nat) (x : num),
          pixel read2 i j = Some x ->
          pixel read2' i j = Some (num_add x (of_Z 4)))
    /\ reference_countrate sr (mkHDUList 3 [read1; read2; read3])
       = region_median sr read3
    /\ forall m : num, (3, m) ∉ [(1, of_Z 10); (2, of_Z 6)].
Proof.
  intros H1 H2 H3. exists (iadd read2 (of_Z 4)).
  split; [|split; [|split; [|split]]].
  - rewrite normalize_Ok by (unfold has_reads, visited; simpl; lia).
    unfold normalized, printed, visited, reference_countrate, corrected.
    cbn [NSAMP SCI]. change (Z.to_nat (3 - 1)) with 2%nat.
    cbn [take drop fmap list_fmap app diagnostics].
    rewrite H1, H2.
    replace (num_sub (of_Z 10) (of_Z 10)) with (Fin 0%Qc) by compute_done.
    replace (num_sub (of_Z 10) (of_Z 6)) with (of_Z 4) by compute_done.
    by rewrite iadd_0.
  - apply shape_iadd.
  - intros i j x Hx. by rewrite pixel_iadd, Hx.
  - unfold reference_countrate. cbn [SCI]. by rewrite H1, H3.
  - intros m. rewrite !elem_of_cons, elem_of_nil.
    intros [[=]|[[=]|[]]].
Qed.

Lemma C3_witness :
  (exists read2' : array,
     normalize middle_row ramp_10_6_10
     = Ok (mkHDUList 3 [read10; read2'; read10'],
           [(1, of_Z 10); (2, of_Z 6)])
     /\ shape read2' = shape read6
     /\ (forall (i j : nat) (x : num),
           pixel read6 i j = Some x ->
           pixel read2' i j = Some (num_add x (of_Z 4)))
     /\ reference_countrate middle_row ramp_10_6_10
        = region_median middle_row read10'
     /\ forall m : num, (3, m) ∉ [(1, of_Z 10); (2, of_Z 6)])
  /\ normalize middle_row ramp_10_6_10
     = Ok (mkHDUList 3
             [read10; [row3 4 4 4; row3 10 9 11; row3 5 5 5]; read10'],
           [(1, of_Z 10); (2, of_Z 6)]).
Proof.
  split.
  - apply (C3_three_read_scenario middle_row read10 read6 read10');
      reflexivity.
  - compute_done.
Defined.

(** ** C4: a region without a median *)

(** C4, as amended.  The cell has no failure of its own for a read whose
    region holds nothing but NaN (or nothing at all).  On a file that has
    the reads the loop needs, if such a read is one the loop visits
    ([1 <= k <= NSAMP - 1]), the cell runs to completion, prints NaN as
    the median of that read, computes the offset [total - NaN = NaN], and
    turns every pixel of the read into NaN.  No other value is substituted
    for the missing median. *)
Theorem C4_undefined_median_propagates
    (sr : region) (ima : HDUList) (k : Z) (data : array) :
  has_reads ima ->
  1 <= k <= NSAMP ima - 1 ->
  sci ima k = Ok data ->
  Forall (fun x => x = NaN) (region_values sr data) ->
  exists (out : HDUList) (diag : list diagnostic),
    normalize sr ima = Ok (out, diag)
    /\ (k, NaN) ∈ diag
    /\ num_sub (reference_countrate sr ima) (region_median sr data) = NaN
    /\ sci out k = Ok (nan_filled data).
Proof.
  intros Hreads Hk Hdata Hnan.
  assert (region_median sr data = NaN) as Hmed by by apply np_median_all_nan.
  exists (normalized sr ima), (printed sr ima).
  split; [by apply normalize_Ok|].
  split; [apply elem_of_printed; by exists data|].
  split; [rewrite Hmed; by destruct (reference_countrate sr ima)|].
  rewrite <- (corrected_nan sr (reference_countrate sr ima)) by done.
  by apply sci_normalized_visited.
Qed.

Lemma C4_witness :
  exists (out : HDUList) (diag : list diagnostic),
    normalize middle_row ramp_10_nan_10 = Ok (out, diag)
    /\ (2, NaN) ∈ diag
    /\ num_sub (reference_countrate middle_row ramp_10_nan_10)
               (region_median middle_row read_nan) = NaN
    /\ sci out 2 = Ok (nan_filled read_nan).
Proof.
  apply (C4_undefined_median_propagates middle_row ramp_10_nan_10 2 read_nan).
  - unfold has_reads, visited. simpl. lia.
  - simpl. lia.
  - reflexivity.
  - vm_compute. repeat constructor.
Defined.

(** C4 as stated fails: the region of the second read holds NaN only, and
    the cell returns normally, with that read overwritten by NaN and NaN
    printed as its median. *)
Lemma C4_all_nan_region_is_not_an_error :
  Forall (fun x => x = NaN) (region_values middle_row read_nan)
  /\ normalize middle_row ramp_10_nan_10
     = Ok (mkHDUList 3 [read10; nan_filled read_nan; read10'],
           [(1, of_Z 10); (2, NaN)]).
Proof.
  split; [vm_compute; repeat constructor|compute_done].
Qed.

(** ** C5: a region that does not fit the reads *)

(** C5, as amended.  The cell never rejects a statistics region.  Slicing
    clips the bounds to each read's array, so on a file that has the reads
    the loop needs the cell runs to completion whatever the region is.  A
    region with [0 <= rowEnd <= rowStart] selects no row: every visited
    read is then reported with median NaN and filled with NaN. *)
Theorem C5_region_never_rejected (sr : region) (ima : HDUList) :
  has_reads ima ->
  exists (out : HDUList) (diag : list diagnostic),
    normalize sr ima = Ok (out, diag)
    /\ (0 <= snd (snd sr) <= fst (snd sr) ->
        (forall (k : Z) (m : num), (k, m) ∈ diag -> m = NaN)
        /\ forall (k : Z) (data : array),
             1 <= k <= NSAMP ima - 1 ->
             sci ima k = Ok data ->
             sci out k = Ok (nan_filled data)).
Proof.
  intros Hreads. exists (normalized sr ima), (printed sr ima).
  split; [by apply normalize_Ok|]. intros Hrows.
  assert (forall data, region_median sr data = NaN) as Hmed.
  { intros data. unfold region_median. by rewrite region_values_no_rows. }
  split.
  - intros k m (data & _ & _ & ->)%elem_of_printed. apply Hmed.
  - intros k data Hk Hdata.
    rewrite <- (corrected_nan sr (reference_countrate sr ima)) by done.
    by apply sci_normalized_visited.
Qed.

Lemma C5_witness :
  exists (out : HDUList) (diag : list diagnostic),
    normalize reversed_rows ramp_10_6_10 = Ok (out, diag)
    /\ (forall (k : Z) (m : num), (k, m) ∈ diag -> m = NaN)
    /\ sci out 2 = Ok (nan_filled read6).
Proof.
  destruct (C5_region_never_rejected reversed_rows ramp_10_6_10)
    as (out & diag & Hrun & Hempty).
  - unfold has_reads, visited. simpl. lia.
  - exists out, diag. split; [exact Hrun|].
    destruct Hempty as [Hdiag Hout]; [simpl; lia|].
    split; [exact Hdiag|]. apply Hout; [simpl; lia|reflexivity].
Defined.

(** C5 as stated fails, for both kinds of invalid region.  With
    [rowStart = 2 > rowEnd = 1], and with the notebook's own region
    [5:1014, 5:1014] on 3x3 reads, which lies outside every read, the cell
    returns normally; the reads it visits are filled with NaN. *)
Lemma C5_invalid_region_is_not_an_error :
  normalize reversed_rows ramp_10_6_10
  = Ok (mkHDUList 3 [nan_filled read10; nan_filled read6; read10'],
        [(1, NaN); (2, NaN)])
  /\ normalize stats_region ramp_10_6_10
     = Ok (mkHDUList 3 [nan_filled read10; nan_filled read6; read10'],
           [(1, NaN); (2, NaN)]).
Proof. split; reflexivity. Qed.

(** ** C6: running the cell twice *)




(** ** C7: a read brighter than the reference *)

Lemma num_leb_add_negative (c : Qc) (x : num) :
  (c < 0)%Qc -> num_leb (num_add x (Fin c)) x = true.
Proof.
  intros Hc. destruct x as [a|]; [|done]. cbn [num_add num_leb].
  apply bool_decide_eq_true.
  rewrite <- (Qcplus_0_r a) at 2. apply Qcplus_le_mono_l.
  by apply Qclt_le_weak.
Qed.

(** C7, as amended.  On a file that has the reads the loop needs, for
    every read [('SCI', k)] with [1 <= k <= NSAMP - 1] whose region median
    [med] exceeds the reference countrate [total], the offset
    [total - med] is negative and the cell adds it to every pixel of the
    read, so that no pixel is raised.  When the pixels of the read and the
    region of the reference read lie on a grid on which the arithmetic of
    the cell is exact ([on_grid]), every pixel is lowered by exactly
    [med - total]; off the grid each sum is rounded on its own.  Nothing
    is said of [('SCI', NSAMP)]. *)
Theorem C7_brighter_read_is_lowered
    (sr : region) (ima : HDUList) (k : Z) (data ref : array) (med total : Qc) :
  has_reads ima ->
  1 <= k <= NSAMP ima - 1 ->
  sci ima k = Ok data ->
  sci ima reference_index = Ok ref ->
  region_median sr data = Fin med ->
  region_median sr ref = Fin total ->
  (total < med)%Qc ->
  exists (out : HDUList) (diag : list diagnostic) (data' : array) (c : Qc),
    normalize sr ima = Ok (out, diag)
    /\ sci out k = Ok data'
    /\ shape data' = shape data
    /\ num_sub (Fin total) (Fin med) = Fin c
    /\ (c < 0)%Qc
    /\ (forall (i j : nat) (x : num),
          pixel data i j = Some x ->
          pixel data' i j = Some (num_add x (Fin c))
          /\ num_leb (num_add x (Fin c)) x = true)
    /\ forall e : Z,
         array_on_grid e data = true ->
         region_on_grid sr e ref = true ->
         forall (i j : nat) (x : num),
           pixel data i j = Some x ->
           pixel data' i j = Some (num_sub x (Fin (med - total)%Qc)).
Proof.
  intros Hreads Hk Hdata Href Hmed Htotal Hlt.
  pose proof (reference_countrate_sci sr ima ref Href) as Hcountrate.
  assert (total - med < 0)%Qc as Hneg.
  { apply (Qcplus_lt_mono_r _ _ med).
    by replace (total - med + med)%Qc with total by ring;
      rewrite Qcplus_0_l. }
  exists (normalized sr ima), (printed sr ima),
    (corrected sr (reference_countrate sr ima) data), (total - med)%Qc.
  split; [by apply normalize_Ok|].
  split; [by apply sci_normalized_visited|].
  split; [apply shape_corrected|].
  split; [done|]. split; [done|].
  unfold corrected. rewrite Hcountrate, Hmed, Htotal. cbn [num_sub].
  split.
  - intros i j x Hx. rewrite pixel_iadd, Hx.
    split; [done|by apply num_leb_add_negative].
  - intros e _ _ i j x Hx. rewrite pixel_iadd, Hx. cbn [fmap option_fmap option_map].
    f_equal. destruct x as [q|]; [|done]. cbn [num_add num_sub].
    f_equal. ring.
Qed.

Lemma C7_witness :
  exists (out : HDUList) (diag : list diagnostic) (data' : array) (c : Qc),
    normalize middle_row (mkHDUList 3 [read10; read12; read6]) = Ok (out, diag)
    /\ sci out 2 = Ok data'
    /\ shape data' = shape read12
    /\ num_sub (Fin (Qc_of_Z 10)) (Fin (Qc_of_Z 12)) = Fin c
    /\ (c < 0)%Qc
    /\ (forall (i j : nat) (x : num),
          pixel read12 i j = Some x ->
          pixel data' i j = Some (num_add x (Fin c))
          /\ num_leb (num_add x (Fin c)) x = true)
    /\ forall (i j : nat) (x : num),
         pixel read12 i j = Some x ->
         pixel data' i j
         = Some (num_sub x (Fin (Qc_of_Z 12 - Qc_of_Z 10)%Qc)).
Proof.
  destruct (C7_brighter_read_is_lowered middle_row
              (mkHDUList 3 [read10; read12; read6]) 2 read12 read10
              (Qc_of_Z 12) (Qc_of_Z 10))
    as (out & diag & data' & c & Hrun & Hdata & Hshape & Hc & Hneg & Hpix
        & Hgrid).
  - unfold has_reads, visited. simpl. lia.
  - simpl. lia.
  - reflexivity.
  - reflexivity.
  - reflexivity.
  - reflexivity.
  - reflexivity.
  - exists out, diag, data', c.
    split; [exact Hrun|]. split; [exact Hdata|]. split; [exact Hshape|].
    split; [exact Hc|]. split; [exact Hneg|]. split; [exact Hpix|].
    apply (Hgrid 0); vm_compute; reflexivity.
Defined.

(** C7 as stated fails on the last extension: in a two-read file the
    second read has median 12, above the reference countrate 10, and is
    returned as it was; its pixel [0, 0] is still 2, not 2 - (12 - 10). *)
Lemma C7_last_read_is_not_lowered :
  exists (out : HDUList) (diag : list diagnostic) (data' : array),
    normalize middle_row ramp_10_12 = Ok (out, diag)
    /\ reference_countrate middle_row ramp_10_12 = of_Z 10
    /\ sci ramp_10_12 2 = Ok read12
    /\ region_median middle_row read12 = of_Z 12
    /\ sci out 2 = Ok data'
    /\ pixel read12 0 0 = Some (of_Z 2)
    /\ pixel data' 0 0 = Some (of_Z 2)
    /\ num_sub (of_Z 2) (num_sub (of_Z 12) (of_Z 10)) <> of_Z 2.
Proof.
  exists ramp_10_12, [(1, of_Z 10)], read12. repeat split; compute_done.
Qed.

(** ** C8: shapes *)

(** C8.  On a file that has the reads the loop needs, the cell returns a
    file with the same number of reads, each of the same shape as the read
    at the same position of the input. *)
Theorem C8_shape_preserved (sr : region) (ima : HDUList) :
  has_reads ima ->
  exists (out : HDUList) (diag : list diagnostic),
    normalize sr ima = Ok (out, diag)
    /\ length (SCI out) = length (SCI ima)
    /\ shape <$> SCI out = shape <$> SCI ima
    /\ forall (k : Z) (data : array),
         sci ima k = Ok data ->
         exists data' : array, sci out k = Ok data' /\ shape data' = shape data.
Proof.
  intros Hreads. exists (normalized sr ima), (printed sr ima).
  split; [by apply normalize_Ok|].
  split; [apply length_normalized|].
  split; [apply shape_normalized|].
  intros k data Hdata.
  destruct (Z.le_gt_cases k (NSAMP ima - 1)) as [Hle|Hgt].
  - exists (corrected sr (reference_countrate sr ima) data).
    split; [|apply shape_corrected].
    apply sci_normalized_visited; [|done].
    apply sci_Ok in Hdata as [? _]. lia.
  - exists data. split; [|done].
    by rewrite sci_normalized_beyond by lia.
Qed.

Lemma C8_witness :
  exists (out : HDUList) (diag : list diagnostic),
    normalize middle_row ramp_10_6_10 = Ok (out, diag)
    /\ length (SCI out) = length (SCI ramp_10_6_10)
    /\ shape <$> SCI out = shape <$> SCI ramp_10_6_10
    /\ forall (k : Z) (data : array),
         sci ramp_10_6_10 k = Ok data ->
         exists data' : array, sci out k = Ok data' /\ shape data' = shape data.
Proof.
  apply (C8_shape_preserved middle_row ramp_10_6_10).
  unfold has_reads, visited. simpl. lia.
Defined.

(** ** C9: the reference read *)

(** C9, as amended.  The iteration of the loop for the reference read
    [('SCI', 1)] never raises an error.  When the region median of the
    reference read is defined, the offset computed for it is exactly zero
    and the read is left as it was, by that iteration and by the cell as a
    whole.  When the median is not defined (the region is empty or holds a
    NaN), the offset is NaN and, on a file on which the loop runs
    ([NSAMP >= 2]), the cell overwrites every pixel of the reference read
    with NaN. *)
Theorem C9_reference_read_identity
    (sr : region) (ima : HDUList) (ref : array) :
  sci ima reference_index = Ok ref ->
  reference_countrate sr ima = region_median sr ref
  /\ (forall out : list diagnostic,
        exists ima' : HDUList,
          loop_body sr (reference_countrate sr ima) (ima, out) 0
          = Ok (ima', out ++ [(reference_index, region_median sr ref)]))
  /\ (forall t : Qc,
        region_median sr ref = Fin t ->
        num_sub (reference_countrate sr ima) (region_median sr ref) = Fin 0%Qc
        /\ (forall out : list diagnostic,
              loop_body sr (reference_countrate sr ima) (ima, out) 0
              = Ok (ima, out ++ [(reference_index, Fin t)]))
        /\ (has_reads ima ->
            exists (ima' : HDUList) (diag : list diagnostic),
              normalize sr ima = Ok (ima', diag)
              /\ sci ima' reference_index = Ok ref))
  /\ (region_median sr ref = NaN ->
      num_sub (reference_countrate sr ima) (region_median sr ref) = NaN
      /\ (has_reads ima ->
          2 <= NSAMP ima ->
          exists (ima' : HDUList) (diag : list diagnostic),
            normalize sr ima = Ok (ima', diag)
            /\ sci ima' reference_index = Ok (nan_filled ref))).
Proof.
  intros Href. destruct ima as [nsamp [|ref0 l]]; [done|].
  injection Href as ->.
  assert (reference_countrate sr (mkHDUList nsamp (ref :: l))
          = region_median sr ref) as Htotal by done.
  pose proof (fun out =>
                loop_body_middle sr (region_median sr ref) nsamp [] l ref out)
    as Hstep.
  change (Z.of_nat (length (@nil array))) with 0 in Hstep.
  cbn [app] in Hstep.
  split; [done|]. split; [|split].
  - intros out. rewrite Htotal, Hstep. by eexists.
  - intros t Hmed.
    split; [rewrite Htotal, Hmed; apply num_sub_diag|].
    split.
    + intros out. rewrite Htotal, Hstep. unfold corrected.
      by rewrite Hmed, num_sub_diag, iadd_0.
    + intros Hreads. exists (normalized sr (mkHDUList nsamp (ref :: l))),
        (printed sr (mkHDUList nsamp (ref :: l))).
      split; [by apply normalize_Ok|].
      destruct (Z.le_gt_cases 1 (nsamp - 1)) as [Hvisited|Hskipped].
      * rewrite (sci_normalized_visited sr _ reference_index ref);
          [|cbn [NSAMP]; unfold reference_index; lia|done].
        rewrite Htotal. unfold corrected.
        by rewrite Hmed, num_sub_diag, iadd_0.
      * by rewrite sci_normalized_beyond
          by (cbn [NSAMP]; unfold reference_index; lia).
  - intros Hmed. split; [by rewrite Htotal, Hmed|].
    intros Hreads Hnsamp. exists (normalized sr (mkHDUList nsamp (ref :: l))),
      (printed sr (mkHDUList nsamp (ref :: l))).
    split; [by apply normalize_Ok|].
    rewrite (sci_normalized_visited sr _ reference_index ref);
      [|cbn [NSAMP] in *; unfold reference_index; lia|done].
    by rewrite corrected_nan.
Qed.

Lemma C9_witness :
  (reference_countrate middle_row ramp_10_6_10 = region_median middle_row read10
   /\ (forall out : list diagnostic,
         loop_body middle_row (reference_countrate middle_row ramp_10_6_10)
           (ramp_10_6_10, out) 0
         = Ok (ramp_10_6_10, out ++ [(reference_index, Fin (Qc_of_Z 10))]))
   /\ num_sub (reference_countrate middle_row ramp_10_6_10)
              (region_median middle_row read10) = Fin 0%Qc
   /\ exists (ima' : HDUList) (diag : list diagnostic),
        normalize middle_row ramp_10_6_10 = Ok (ima', diag)
        /\ sci ima' reference_index = Ok read10)
  /\ (num_sub (reference_countrate middle_row (mkHDUList 2 [read_one_nan; read6]))
              (region_median middle_row read_one_nan) = NaN
      /\ exists (ima' : HDUList) (diag : list diagnostic),
           normalize middle_row (mkHDUList 2 [read_one_nan; read6])
           = Ok (ima', diag)
           /\ sci ima' reference_index = Ok (nan_filled read_one_nan)).
Proof.
  split.
  - destruct (C9_reference_read_identity middle_row ramp_10_6_10 read10)
      as (Htotal & _ & Hdefined & _); [reflexivity|].
    destruct (Hdefined (Qc_of_Z 10)) as (Hzero & Hstep & Hrun); [reflexivity|].
    split; [exact Htotal|]. split; [exact Hstep|]. split; [exact Hzero|].
    apply Hrun. unfold has_reads, visited. simpl. lia.
  - destruct (C9_reference_read_identity middle_row
                (mkHDUList 2 [read_one_nan; read6]) read_one_nan)
      as (_ & _ & _ & Hundefined); [reflexivity|].
    destruct Hundefined as (Hnan & Hrun); [reflexivity|].
    split; [exact Hnan|].
    apply Hrun; [unfold has_reads, visited; simpl; lia|simpl; lia].
Defined.

(** C9 as stated fails when the reference read has no defined median.  A
    single NaN among the pixels of its region makes the median, and with
    it the offset, NaN: the cell returns normally and the reference read
    comes out with every pixel NaN. *)
Lemma C9_nan_in_reference_region_overwrites_it :
  sci (mkHDUList 2 [read_one_nan; read6]) reference_index = Ok read_one_nan
  /\ region_median middle_row read_one_nan = NaN
  /\ normalize middle_row (mkHDUList 2 [read_one_nan; read6])
     = Ok (mkHDUList 2 [nan_filled read_one_nan; read6], [(1, NaN)])
  /\ pixel read_one_nan 0 0 = Some (of_Z 1)
  /\ pixel (nan_filled read_one_nan) 0 0 = Some NaN
  /\ nan_filled read_one_nan <> read_one_nan.
Proof. repeat split; compute_done. Qed.

(** ** C10: the last science extension *)

(** C10.  The loop visits [('SCI', 1)] to [('SCI', NSAMP - 1)] only.  On a
    file that has the reads the loop needs, the cell leaves every
    extension from [('SCI', NSAMP)] on as it was, the last one in
    particular, and prints a line for the versions 1 to NSAMP - 1 and for
    no other: none for [('SCI', NSAMP)]. *)
Theorem C10_last_extension_untouched (sr : region) (ima : HDUList) :
  has_reads ima ->
  exists (out : HDUList) (diag : list diagnostic),
    normalize sr ima = Ok (out, diag)
    /\ sci out (NSAMP ima) = sci ima (NSAMP ima)
    /\ (forall m : num, (NSAMP ima, m) ∉ diag)
    /\ (forall k : Z, NSAMP ima <= k -> sci out k = sci ima k)
    /\ (forall (k : Z) (m : num), (k, m) ∈ diag -> 1 <= k <= NSAMP ima - 1)
    /\ diag.*1 = seqZ 1 (Z.of_nat (visited ima)).
Proof.
  intros Hreads. exists (normalized sr ima), (printed sr ima).
  split; [by apply normalize_Ok|].
  split; [by apply sci_normalized_beyond|].
  split; [intros m (data & Hk & _)%elem_of_printed; lia|].
  split; [intros k Hk; by apply sci_normalized_beyond|].
  split; [intros k m (data & Hk & _)%elem_of_printed; lia|].
  unfold printed. destruct Hreads as [_ Hn].
  rewrite <- (length_take_le (SCI ima) (visited ima)) at 2 by done.
  generalize (take (visited ima) (SCI ima)) as l. generalize 1 as j.
  intros j l. revert j. induction l as [|data l IH]; intros j; [done|].
  cbn [diagnostics fmap list_fmap length].
  rewrite seqZ_cons by lia. cbn [fst]. f_equal.
  rewrite IH. f_equal; lia.
Qed.

Lemma C10_witness :
  exists (out : HDUList) (diag : list diagnostic),
    normalize middle_row ramp_10_6_10 = Ok (out, diag)
    /\ sci out (NSAMP ramp_10_6_10) = sci ramp_10_6_10 (NSAMP ramp_10_6_10)
    /\ (forall m : num, (NSAMP ramp_10_6_10, m) ∉ diag)
    /\ (forall k : Z, NSAMP ramp_10_6_10 <= k -> sci out k = sci ramp_10_6_10 k)
    /\ (forall (k : Z) (m : num),
          (k, m) ∈ diag -> 1 <= k <= NSAMP ramp_10_6_10 - 1)
    /\ diag.*1 = seqZ 1 (Z.of_nat (visited ramp_10_6_10)).
Proof.
  apply (C10_last_extension_untouched middle_row ramp_10_6_10).
  unfold has_reads, visited. simpl. lia.
Defined.

(** * Beyond the claims *)

(** ** When the cell succeeds and how it fails *)

(** X1.  The cell runs to completion exactly on the files that hold the
    reference extension [('SCI', 1)] and every extension up to
    [('SCI', NSAMP - 1)]; on every other file it raises. *)
Theorem X1_succeeds_iff_reads_exist (sr : region) (ima : HDUList) :
  (exists r, normalize sr ima = Ok r)
  <-> (1 <= length (SCI ima))%nat
      /\ NSAMP ima - 1 <= Z.of_nat (length (SCI ima)).
Proof.
  rewrite normalize_Ok_iff. unfold has_reads, visited. lia.
Qed.

(** X2.  Without any science extension the cell raises
    [KeyError ('SCI', 1)], whatever [NSAMP] says, even when the loop would
    not run: the reference read is fetched before the loop. *)
Theorem X2_no_extension_KeyError (sr : region) (ima : HDUList) :
  SCI ima = [] -> normalize sr ima = Err (KeyError 1).
Proof. apply normalize_no_reference. Qed.

Lemma X2_witness : normalize middle_row no_extension = Err (KeyError 1).
Proof. apply (X2_no_extension_KeyError middle_row no_extension). reflexivity. Defined.

(** X3.  On a file with [n >= 1] science extensions and [NSAMP - 1 > n],
    the cell raises [KeyError ('SCI', n + 1)]: the loop trusts the header
    keyword, not the number of extensions in the file. *)
Theorem X3_missing_extension_KeyError (sr : region) (ima : HDUList) :
  (1 <= length (SCI ima))%nat ->
  Z.of_nat (length (SCI ima)) < NSAMP ima - 1 ->
  normalize sr ima = Err (KeyError (Z.of_nat (length (SCI ima)) + 1)).
Proof.
  intros H1 Hn. apply normalize_missing_read. unfold visited. lia.
Qed.

Lemma X3_witness : normalize middle_row short_file = Err (KeyError 4).
Proof.
  apply (X3_missing_extension_KeyError middle_row short_file); simpl; lia.
Defined.

(** X4.  With [NSAMP <= 1] the loop has nothing to visit: on a file with
    at least one science extension the cell returns the file as it was and
    prints nothing. *)
Theorem X4_single_sample_untouched (sr : region) (ima : HDUList) :
  NSAMP ima <= 1 ->
  SCI ima <> [] ->
  normalize sr ima = Ok (ima, []).
Proof.
  intros Hn Hne. rewrite normalize_Ok.
  - unfold normalized, printed, visited.
    replace (Z.to_nat (NSAMP ima - 1)) with 0%nat by lia.
    rewrite take_0, drop_0. by destruct ima.
  - unfold has_reads, visited. destruct (SCI ima); [done|]. simpl. lia.
Qed.

Lemma X4_witness : normalize middle_row single_sample = Ok (single_sample, []).
Proof.
  apply (X4_single_sample_untouched middle_row single_sample);
    [simpl; lia|discriminate].
Defined.

(** ** The whole cell *)

Lemma for_loop_run_Ok {S : Type} (body : S -> Z -> result S) (l : list Z) :
  forall st st' : S,
  for_loop body st l = Ok st' -> for_loop_run body st l = (st', None).
Proof.
  induction l as [|i l IH]; intros st st'; cbn [for_loop for_loop_run].
  - by intros [= ->].
  - destruct (body st i) as [st1|e]; [|done]. apply IH.
Qed.

Lemma for_loop_run_Err {S : Type} (body : S -> Z -> result S) (l : list Z) :
  forall (st : S) (e : error),
  for_loop body st l = Err e ->
  exists st' : S, for_loop_run body st l = (st', Some e).
Proof.
  induction l as [|i l IH]; intros st e; cbn [for_loop for_loop_run]; [done|].
  destruct (body st i) as [st1|e1]; [apply IH|].
  intros [= ->]. by exists st.
Qed.

Lemma for_loop_run_app {S : Type} (body : S -> Z -> result S) (l1 l2 : list Z) :
  forall st st1 : S,
  for_loop body st l1 = Ok st1 ->
  for_loop_run body st (l1 ++ l2) = for_loop_run body st1 l2.
Proof.
  induction l1 as [|i l1 IH]; intros st st1; cbn [for_loop for_loop_run app].
  - by intros [= ->].
  - destruct (body st i) as [st'|e]; [|done]. apply IH.
Qed.

Lemma loop_body_frame (sr : region) (total : num)
    (st st' : HDUList * list diagnostic) (i : Z) :
  loop_body sr total st i = Ok st' ->
  NSAMP st'.1 = NSAMP st.1 /\ length (SCI st'.1) = length (SCI st.1).
Proof.
  unfold loop_body, sci_iadd. destruct (sci st.1 (i + 1)) as [data|e]; [|done].
  cbn [mbind result_bind mret result_ret]. intros [= <-]. cbn [fst NSAMP SCI].
  by rewrite length_insert.
Qed.

Lemma for_loop_run_frame (sr : region) (total : num) (l : list Z) :
  forall st : HDUList * list diagnostic,
  NSAMP (for_loop_run (loop_body sr total) st l).1.1 = NSAMP st.1
  /\ length (SCI (for_loop_run (loop_body sr total) st l).1.1)
     = length (SCI st.1).
Proof.
  induction l as [|i l IH]; intros st; cbn [for_loop_run]; [done|].
  destruct (loop_body sr total st i) as [st'|e] eqn:Hbody; [|done].
  apply loop_body_frame in Hbody as [<- <-]. apply IH.
Qed.

(** X5.  The cell switches the ramp fitting back on, [CRCORR = 'PERFORM'],
    exactly when the loop completes; the file in memory and the printed
    lines are then those of the loop.  When the loop raises, the cell ends
    with that exception and [CRCORR] is left as it was.  In neither case
    does the cell change [NSAMP] or the number of science extensions. *)
Theorem X5_CRCORR_set_only_on_success (sr : region) (f : fits) :
  match normalize sr (hdul f) with
  | Ok r => cell_29 sr f = (mkfits "PERFORM" r.1, r.2, None)
  | Err e =>
      exists (f' : fits) (out : list diagnostic),
        cell_29 sr f = (f', out, Some e) /\ CRCORR f' = CRCORR f
  end
  /\ NSAMP (hdul (cell_29 sr f).1.1) = NSAMP (hdul f)
  /\ length (SCI (hdul (cell_29 sr f).1.1)) = length (SCI (hdul f)).
Proof.
  unfold normalize, cell_29.
  destruct (sci (hdul f) reference_index) as [ref|e]; cbn [mbind result_bind];
    [|split; [by exists f, []|done]].
  pose proof (for_loop_run_frame sr (region_median sr ref)
                (range (NSAMP (hdul f) - 1)) (hdul f, [])) as Hframe.
  cbn [fst] in Hframe.
  destruct (for_loop _ _ _) as [r|e] eqn:Hloop.
  - rewrite (for_loop_run_Ok _ _ _ _ Hloop) in *. cbn [fst snd] in *. done.
  - apply for_loop_run_Err in Hloop as [st' Hrun].
    rewrite Hrun in *. cbn [fst snd] in *. split; [|done].
    by eexists _, _.
Qed.

(** X6.  The cell is not atomic.  On a file with [n >= 1] science
    extensions and [NSAMP - 1 > n], when [KeyError ('SCI', n + 1)] ends the
    cell every one of the [n] extensions has already been corrected in
    memory and reported, and [CRCORR] has not been set. *)
Theorem X6_failure_leaves_reads_corrected (sr : region) (f : fits) :
  (1 <= length (SCI (hdul f)))%nat ->
  Z.of_nat (length (SCI (hdul f))) < NSAMP (hdul f) - 1 ->
  cell_29 sr f
  = (mkfits (CRCORR f)
       (mkHDUList (NSAMP (hdul f))
          (corrected sr (reference_countrate sr (hdul f)) <$> SCI (hdul f))),
     diagnostics sr 1 (SCI (hdul f)),
     Some (KeyError (Z.of_nat (length (SCI (hdul f))) + 1))).
Proof.
  intros H1 Hn. destruct f as [crcorr [nsamp l]]. cbn [hdul NSAMP SCI] in *.
  destruct l as [|ref l]; [simpl in H1; lia|].
  unfold cell_29, reference_index, reference_countrate. cbn [hdul NSAMP SCI].
  change (sci _ 1) with (sci (mkHDUList nsamp ([] ++ ref :: l))
                            (Z.of_nat (length (@nil array)) + 1)).
  rewrite sci_middle. cbn [app].
  set (len := length (ref :: l)) in *. unfold range.
  replace (nsamp - 1) with (Z.of_nat len + (nsamp - 1 - Z.of_nat len)) by lia.
  rewrite seqZ_app by lia.
  pose proof (for_loop_take sr (region_median sr ref) nsamp len [] (ref :: l) []
                (Nat.le_refl _)) as Hloop.
  change (Z.of_nat (length (@nil array))) with 0 in Hloop.
  cbn [app] in Hloop. fold len in Hloop.
  rewrite (for_loop_run_app _ _ _ _ _ Hloop).
  rewrite seqZ_cons by lia. cbn [for_loop_run].
  rewrite loop_body_missing.
  - cbn [fst snd]. rewrite Z.add_0_l.
    unfold len. by rewrite take_ge, drop_ge, app_nil_r by lia.
  - cbn [fst SCI]. rewrite length_app, length_fmap, <- length_app, take_drop.
    fold len. lia.
Qed.

Lemma X6_witness :
  cell_29 middle_row (mkfits "OMIT" short_file)
  = (mkfits "OMIT"
       (mkHDUList 5
          (corrected middle_row (reference_countrate middle_row short_file)
             <$> SCI short_file)),
     diagnostics middle_row 1 (SCI short_file),
     Some (KeyError (Z.of_nat (length (SCI short_file)) + 1))).
Proof.
  apply (X6_failure_leaves_reads_corrected middle_row (mkfits "OMIT" short_file));
    simpl; lia.
Defined.

(** ** What the correction keeps *)

Lemma num_sub_add_add (c : Qc) (x y : num) :
  num_sub (num_add x (Fin c)) (num_add y (Fin c)) = num_sub x y.
Proof. destruct x as [a|], y as [b|]; simpl; try done. f_equal. ring. Qed.

Lemma num_leb_add_mono (c : Qc) (x y : num) :
  num_leb x y = true -> num_leb (num_add x (Fin c)) (num_add y (Fin c)) = true.
Proof. by rewrite num_leb_add. Qed.

(** X7.  The correction does not reverse the order of the pixels of a
    read: when the read's median and the reference countrate are both
    defined, every pixel of the read is still there, and of two pixels the
    one that was not above the other is not above it afterwards.  When the
    pixels of the read and the region of the reference read lie on a grid
    on which the arithmetic of the cell is exact ([on_grid]), the
    difference of any two pixels of the read is what it was, which is what
    the notebook's comment means by keeping the pixel statistics; off the
    grid two close pixels can be rounded to the same value. *)
Theorem X7_pixel_order_preserved
    (sr : region) (ima : HDUList) (k : Z) (data ref : array) (med total : Qc) :
  has_reads ima ->
  1 <= k <= NSAMP ima - 1 ->
  sci ima k = Ok data ->
  sci ima reference_index = Ok ref ->
  region_median sr data = Fin med ->
  region_median sr ref = Fin total ->
  exists (out : HDUList) (diag : list diagnostic) (data' : array),
    normalize sr ima = Ok (out, diag)
    /\ sci out k = Ok data'
    /\ forall (i j i' j' : nat) (x y : num),
         pixel data i j = Some x ->
         pixel data i' j' = Some y ->
         exists x' y' : num,
           pixel data' i j = Some x'
           /\ pixel data' i' j' = Some y'
           /\ (num_leb x y = true -> num_leb x' y' = true)
           /\ forall e : Z,
                array_on_grid e data = true ->
                region_on_grid sr e ref = true ->
                num_sub x' y' = num_sub x y.
Proof.
  intros Hreads Hk Hdata Href Hmed Htotal.
  pose proof (reference_countrate_sci sr ima ref Href) as Hcountrate.
  exists (normalized sr ima), (printed sr ima),
    (corrected sr (reference_countrate sr ima) data).
  split; [by apply normalize_Ok|].
  split; [by apply sci_normalized_visited|].
  intros i j i' j' x y Hx Hy. unfold corrected.
  rewrite Hcountrate, Hmed, Htotal. cbn [num_sub].
  exists (num_add x (Fin (total - med)%Qc)), (num_add y (Fin (total - med)%Qc)).
  rewrite !pixel_iadd, Hx, Hy.
  split; [done|]. split; [done|].
  split; [apply num_leb_add_mono|]. intros e _ _. apply num_sub_add_add.
Qed.

Lemma X7_witness :
  exists (out : HDUList) (diag : list diagnostic) (data' : array),
    normalize middle_row ramp_10_6_10 = Ok (out, diag)
    /\ sci out 2 = Ok data'
    /\ forall (i j i' j' : nat) (x y : num),
         pixel read6 i j = Some x ->
         pixel read6 i' j' = Some y ->
         exists x' y' : num,
           pixel data' i j = Some x'
           /\ pixel data' i' j' = Some y'
           /\ (num_leb x y = true -> num_leb x' y' = true)
           /\ num_sub x' y' = num_sub x y.
Proof.
  destruct (X7_pixel_order_preserved middle_row ramp_10_6_10 2 read6 read10
              (Qc_of_Z 6) (Qc_of_Z 10))
    as (out & diag & data' & Hrun & Hdata & Hpix).
  - unfold has_reads, visited. simpl. lia.
  - simpl. lia.
  - reflexivity.
  - reflexivity.
  - reflexivity.
  - reflexivity.
  - exists out, diag, data'. split; [exact Hrun|]. split; [exact Hdata|].
    intros i j i' j' x y Hx Hy.
    destruct (Hpix i j i' j' x y Hx Hy) as (x' & y' & Hx' & Hy' & Hle & Hgrid).
    exists x', y'. split; [exact Hx'|]. split; [exact Hy'|].
    split; [exact Hle|]. apply (Hgrid 0); vm_compute; reflexivity.
Defined.

(** X8.  Reads are corrected independently of one another: what the cell
    makes of [('SCI', k)] depends on that read, on the reference read and
    on [NSAMP] only.  Two files that agree on these agree on the corrected
    read, whatever their other extensions hold. *)
Theorem X8_reads_corrected_independently
    (sr : region) (ima1 ima2 : HDUList) (k : Z) (ref data : array) :
  has_reads ima1 ->
  has_reads ima2 ->
  NSAMP ima1 = NSAMP ima2 ->
  sci ima1 reference_index = Ok ref ->
  sci ima2 reference_index = Ok ref ->
  sci ima1 k = Ok data ->
  sci ima2 k = Ok data ->
  exists (out1 out2 : HDUList) (diag1 diag2 : list diagnostic),
    normalize sr ima1 = Ok (out1, diag1)
    /\ normalize sr ima2 = Ok (out2, diag2)
    /\ sci out1 k = sci out2 k.
Proof.
  intros Hreads1 Hreads2 Hnsamp Href1 Href2 Hdata1 Hdata2.
  exists (normalized sr ima1), (normalized sr ima2),
    (printed sr ima1), (printed sr ima2).
  split; [by apply normalize_Ok|]. split; [by apply normalize_Ok|].
  assert (1 <= k) as Hk1 by (by apply sci_Ok in Hdata1 as [? _]).
  destruct (Z.le_gt_cases k (NSAMP ima1 - 1)) as [Hle|Hgt].
  - rewrite (sci_normalized_visited sr ima1 k data) by (done || lia).
    rewrite (sci_normalized_visited sr ima2 k data) by (done || lia).
    by rewrite (reference_countrate_sci sr ima1 ref),
      (reference_countrate_sci sr ima2 ref).
  - rewrite !sci_normalized_beyond by lia. by rewrite Hdata1, Hdata2.
Qed.

Lemma X8_witness :
  exists (out1 out2 : HDUList) (diag1 diag2 : list diagnostic),
    normalize middle_row (mkHDUList 4 [read10; read6; read12; read10'])
    = Ok (out1, diag1)
    /\ normalize middle_row (mkHDUList 4 [read10; read_nan; read12; read6])
       = Ok (out2, diag2)
    /\ sci out1 3 = sci out2 3.
Proof.
  apply (X8_reads_corrected_independently middle_row
           (mkHDUList 4 [read10; read6; read12; read10'])
           (mkHDUList 4 [read10; read_nan; read12; read6]) 3 read10 read12);
    try reflexivity; unfold has_reads, visited; simpl; lia.
Defined.

(** X9.  A visited read whose median already is the reference countrate
    gets the offset zero and is returned as it was. *)
Theorem X9_read_at_reference_level_unchanged
    (sr : region) (ima : HDUList) (k : Z) (data : array) (total : Qc) :
  has_reads ima ->
  1 <= k <= NSAMP ima - 1 ->
  sci ima k = Ok data ->
  reference_countrate sr ima = Fin total ->
  region_median sr data = Fin total ->
  exists (out : HDUList) (diag : list diagnostic),
    normalize sr ima = Ok (out, diag)
    /\ (k, Fin total) ∈ diag
    /\ sci out k = Ok data.
Proof.
  intros Hreads Hk Hdata Htotal Hmed.
  exists (normalized sr ima), (printed sr ima).
  split; [by apply normalize_Ok|].
  split; [apply elem_of_printed; by exists data|].
  rewrite (sci_normalized_visited sr ima k data) by done.
  unfold corrected. by rewrite Htotal, Hmed, num_sub_diag, iadd_0.
Qed.

Lemma X9_witness :
  exists (out : HDUList) (diag : list diagnostic),
    normalize middle_row (mkHDUList 4 [read10; read6; read10'; read12])
    = Ok (out, diag)
    /\ (3, Fin (Qc_of_Z 10)) ∈ diag
    /\ sci out 3 = Ok read10'.
Proof.
  apply (X9_read_at_reference_level_unchanged middle_row
           (mkHDUList 4 [read10; read6; read10'; read12]) 3 read10'
           (Qc_of_Z 10)).
  - unfold has_reads, visited. simpl. lia.
  - simpl. lia.
  - reflexivity.
  - reflexivity.
  - reflexivity.
Defined.

(** ** The region the notebook uses *)

(** With bounds in order and not negative, a slice is a [drop] followed by
    a [take], whatever the length of the sequence. *)
Lemma getitem_take_drop {A : Type} (a b : Z) (l : list A) :
  0 <= a <= b ->
  getitem (Slice a b) l = take (Z.to_nat (b - a)) (drop (Z.to_nat a) l).
Proof.
  intros Hab. unfold getitem, adjust_index. cbn [start stop].
  destruct (Z.ltb_spec a 0), (Z.ltb_spec b 0); try lia.
  destruct (Z.le_gt_cases (Z.of_nat (length l)) a) as [Hla|Hal].
  - by rewrite !drop_ge, !take_nil by lia.
  - rewrite (Z.min_l a) by lia.
    destruct (Z.le_gt_cases b (Z.of_nat (length l))) as [Hbl|Hlb].
    + by rewrite (Z.min_l b) by lia.
    + rewrite (Z.min_r b) by lia.
      by rewrite !take_ge by (rewrite length_drop; lia).
Qed.

(** X10.  On any read, of any size, the notebook's region [5:1014, 5:1014]
    selects rows 5 to 1013 and in each of them columns 5 to 1013, as far
    as they exist.  A read smaller than 1014 pixels across is cut at its
    own edge without an error, and on a 1024 pixel wide read the last ten
    rows and columns are left out. *)
Theorem X10_stats_region_selection (data : array) :
  region_values stats_region data
  = concat ((fun r : list num => take 1009 (drop 5 r)) <$> take 1009 (drop 5 data)).
Proof.
  unfold region_values, getitem2, stats_region, sly, slx. cbn [fst snd].
  rewrite (getitem_take_drop 5 1014) by lia.
  f_equal. apply list_fmap_ext. intros _ r _.
  by rewrite (getitem_take_drop 5 1014) by lia.
Qed.

(** ** Background statistics *)

Example background_sample :
  background (of_Z 0) (of_Z 1) flt_sample
  = (Fin (Qc_of_Z 1 / Qc_of_Z 2)%Qc, Fin (Qc_of_Z 1 / Qc_of_Z 2)%Qc).
Proof. compute_done. Qed.

Lemma window_Forall (lo hi : Qc) (f : list num) :
  Forall (in_window lo hi) (window (Fin lo) (Fin hi) f).
Proof.
  unfold window. apply List.Forall_forall. intros x [_ Hx]%List.filter_In.
  apply andb_true_iff in Hx as [Hlo Hhi].
  destruct x as [q|]; [|done]. exists q.
  by apply bool_decide_eq_true in Hlo, Hhi.
Qed.

(** A pixel of the image is kept exactly when it lies strictly inside the
    window; NaN never is. *)
Lemma elem_of_window (lo hi : Qc) (f : list num) (x : num) :
  x ∈ window (Fin lo) (Fin hi) f <-> x ∈ f /\ in_window lo hi x.
Proof.
  unfold window. rewrite !list_elem_of_In, List.filter_In. split.
  - intros [Hx Hin]. split; [done|].
    apply andb_true_iff in Hin as [Hlo Hhi].
    destruct x as [q|]; [|done]. exists q.
    by apply bool_decide_eq_true in Hlo, Hhi.
  - intros [Hx (q & -> & Hlo & Hhi)]. split; [done|].
    apply andb_true_iff. cbn [num_ltb]. by rewrite !bool_decide_eq_true.
Qed.

Lemma in_window_mean2 (lo hi : Qc) (x y : num) :
  in_window lo hi x -> in_window lo hi y -> in_window lo hi (mean2 x y).
Proof.
  intros (a & -> & Ha1 & Ha2) (b & -> & Hb1 & Hb2). eexists. split; [done|].
  assert (0 < 2)%Qc as H2 by done.
  split; apply (Qcmult_lt_mono_pos_r _ _ 2 H2).
  - replace ((a + b) / 2 * 2)%Qc with (a + b)%Qc by (field; done).
    replace (lo * 2)%Qc with (lo + lo)%Qc by ring.
    apply Qclt_trans with (a + lo)%Qc.
    + by apply Qcplus_lt_mono_r.
    + by apply Qcplus_lt_mono_l.
  - replace ((a + b) / 2 * 2)%Qc with (a + b)%Qc by (field; done).
    replace (hi * 2)%Qc with (hi + hi)%Qc by ring.
    apply Qclt_trans with (a + hi)%Qc.
    + by apply Qcplus_lt_mono_l.
    + by apply Qcplus_lt_mono_r.
Qed.

(** X11.  The median the notebook prints for an image lies strictly inside
    the window [(lo, hi)] the pixels were selected with, whatever the image
    holds (NaN pixels never enter); it is NaN exactly when no pixel of the
    image lies inside the window. *)
Theorem X11_background_median_in_window (lo hi : Qc) (flt : array) :
  let sel := window (Fin lo) (Fin hi) (flatten flt) in
  match (background (Fin lo) (Fin hi) flt).2 with
  | Fin m => (lo < m < hi)%Qc /\ sel <> []
  | NaN => sel = []
  end.
Proof.
  cbn zeta. unfold background. cbn [snd].
  pose proof (window_Forall lo hi (flatten flt)) as Hsel.
  destruct (window (Fin lo) (Fin hi) (flatten flt)) as [|x sel] eqn:Heq;
    [done|].
  destruct (np_median_Forall (in_window lo hi) (x :: sel))
    as (m & -> & Hm); try done.
  - by intros (q & ? & _).
  - apply in_window_mean2.
Qed.






(** ** File names *)

Example root_of_download :
  root "data/mastDownload/HST/ibohbfb9q/ibohbfb9q_raw.fits" = "ibohbfb9q_raw.fits"%string.
Proof. reflexivity. Qed.

Lemma split_nonempty (sep : Ascii.ascii) (s : string) : split sep s <> [].
Proof.
  destruct s as [|c s]; cbn [split]; [done|].
  destruct (Ascii.eqb c sep); [done|]. by destruct (split sep s).
Qed.

(** Joining the pieces with the separator gives the string back. *)
Lemma concat_split (sep : Ascii.ascii) (s : string) :
  String.concat (String sep EmptyString) (split sep s) = s.
Proof.
  induction s as [|c s IH]; [done|]. cbn [split].
  destruct (Ascii.eqb_spec c sep) as [->|Hne].
  - pose proof (split_nonempty sep s) as Hne.
    destruct (split sep s) as [|p ps]; [done|].
    change (String.concat (String sep EmptyString) (EmptyString :: p :: ps))
      with (String sep (String.concat (String sep EmptyString) (p :: ps))).
    by rewrite IH.
  - pose proof (split_nonempty sep s) as Hne'.
    destruct (split sep s) as [|p ps]; [done|].
    destruct ps as [|p' ps].
    + change (String c p = String c s). by rewrite <- IH.
    + change (String.concat (String sep EmptyString) (String c p :: p' :: ps))
        with (String c (String.concat (String sep EmptyString) (p :: p' :: ps))).
      by rewrite IH.
Qed.

Lemma append_assoc (s1 s2 s3 : string) :
  ((s1 ++ s2) ++ s3 = s1 ++ (s2 ++ s3))%string.
Proof.
  induction s1 as [|c s1 IH]; [done|].
  change (String c ((s1 ++ s2) ++ s3) = String c (s1 ++ (s2 ++ s3)))%string.
  by rewrite IH.
Qed.

Lemma split_no_slash (s : string) :
  Forall (fun p => has_slash p = false) (split "/" s).
Proof.
  induction s as [|c s IH]; cbn [split]; [by repeat constructor|].
  destruct (Ascii.eqb c "/") eqn:Hc; [by constructor|].
  pose proof (split_nonempty "/" s) as Hne.
  destruct (split "/" s) as [|p ps]; [done|].
  apply Forall_cons in IH as [Hp Hps].
  constructor; [|done]. cbn [has_slash]. by rewrite Hc, Hp.
Qed.

Lemma concat_last (sep : string) (l : list string) :
  l <> [] ->
  String.concat sep l = List.last l EmptyString
  \/ exists dir : string,
       String.concat sep l = (dir ++ sep ++ List.last l EmptyString)%string.
Proof.
  induction l as [|x l IH]; [done|]. intros _.
  destruct l as [|y l]; [by left|]. right.
  destruct IH as [IH|[dir IH]]; [done| |].
  - exists x. change (String.concat sep (x :: y :: l))
      with (x ++ sep ++ String.concat sep (y :: l))%string.
    by rewrite IH.
  - exists (x ++ sep ++ dir)%string.
    change (String.concat sep (x :: y :: l))
      with (x ++ sep ++ String.concat sep (y :: l))%string.
    rewrite IH. change (List.last (x :: y :: l) EmptyString)
      with (List.last (y :: l) EmptyString).
    by rewrite !append_assoc.
Qed.

(** X13.  The name a downloaded file is moved under is the last component
    of its path: it holds no ['/'], and the path is either that name
    itself or a directory, a ['/'] and that name.  The directories of the
    download tree do not enter the name. *)
Theorem X13_root_is_last_component (im : string) :
  has_slash (root im) = false
  /\ (im = root im
      \/ exists dir : string, im = (dir ++ "/" ++ root im)%string).
Proof.
  unfold root. split.
  - pose proof (split_no_slash im) as Hall.
    pose proof (split_nonempty "/" im) as Hne.
    induction Hall as [|p ps Hp Hps IH]; [done|].
    destruct ps as [|p' ps]; [done|]. by apply IH.
  - pose proof (concat_last "/" (split "/" im) (split_nonempty "/" im)) as H.
    by rewrite (concat_split "/" im) in H.
Qed.

(** ** Files on disk *)

(** X14.  When calwf3 has left its two products beside the corrected IMA
    (and, on Windows, no [ibohbfb9q_flt.fits] is in the way), the clean-up
    runs to completion on either platform: the products take the names
    [ibohbfb9q_ima.fits] and [ibohbfb9q_flt.fits], their former names are
    gone, and no other file is touched. *)
Theorem X14_clean_up_installs_products {C : Type}
    (os : platform) (fs : gmap string C) (a b c : C) :
  fs !! "ibohbfb9q_ima.fits" = Some a ->
  fs !! "ibohbfb9q_ima_ima.fits" = Some b ->
  fs !! "ibohbfb9q_ima_flt.fits" = Some c ->
  (os = Windows -> fs !! "ibohbfb9q_flt.fits" = None) ->
  exists fs' : gmap string C,
    clean_up os fs = (fs', None)
    /\ fs' !! "ibohbfb9q_ima.fits" = Some b
    /\ fs' !! "ibohbfb9q_flt.fits" = Some c
    /\ fs' !! "ibohbfb9q_ima_ima.fits" = None
    /\ fs' !! "ibohbfb9q_ima_flt.fits" = None
    /\ forall p : string,
         p <> "ibohbfb9q_ima.fits" -> p <> "ibohbfb9q_flt.fits" ->
         p <> "ibohbfb9q_ima_ima.fits" -> p <> "ibohbfb9q_ima_flt.fits" ->
         fs' !! p = fs !! p.
Proof.
  intros Ha Hb Hc Hflt.
  exists (<["ibohbfb9q_flt.fits" := c]>
            (delete "ibohbfb9q_ima_flt.fits"
               (<["ibohbfb9q_ima.fits" := b]>
                  (delete "ibohbfb9q_ima_ima.fits"
                     (delete "ibohbfb9q_ima.fits" fs))))).
  split.
  - unfold clean_up. cbn [run_statements]. unfold os_remove at 1. rewrite Ha.
    unfold os_rename at 1.
    rewrite lookup_delete_ne, Hb, lookup_delete_eq by done.
    replace (match os with Unix | _ => _ end)
      with (@inr os_error _
              (<["ibohbfb9q_ima.fits" := b]>
                 (delete "ibohbfb9q_ima_ima.fits"
                    (delete "ibohbfb9q_ima.fits" fs))))
      by (by destruct os).
    unfold os_rename.
    rewrite lookup_insert_ne, !lookup_delete_ne, Hc by done.
    rewrite lookup_insert_ne, !lookup_delete_ne by done.
    destruct os; [by destruct (fs !! "ibohbfb9q_flt.fits")|].
    by rewrite Hflt.
  - split; [by simplify_map_eq|]. split; [by simplify_map_eq|].
    split; [by simplify_map_eq|]. split; [by simplify_map_eq|].
    intros p ? ? ? ?. by simplify_map_eq.
Qed.

Lemma X14_witness :
  exists fs' : gmap string nat,
    clean_up Windows after_second_calwf3 = (fs', None)
    /\ fs' !! "ibohbfb9q_ima.fits" = Some 4%nat
    /\ fs' !! "ibohbfb9q_flt.fits" = Some 5%nat
    /\ fs' !! "ibohbfb9q_ima_ima.fits" = None
    /\ fs' !! "ibohbfb9q_ima_flt.fits" = None
    /\ forall p : string,
         p <> "ibohbfb9q_ima.fits" -> p <> "ibohbfb9q_flt.fits" ->
         p <> "ibohbfb9q_ima_ima.fits" -> p <> "ibohbfb9q_ima_flt.fits" ->
         fs' !! p = after_second_calwf3 !! p.
Proof.
  apply (X14_clean_up_installs_products Windows after_second_calwf3 3%nat);
    try reflexivity.
Defined.

(** X15.  The clean-up is not atomic.  If calwf3 has not produced
    [ibohbfb9q_ima_ima.fits], the clean-up has already deleted the
    corrected [ibohbfb9q_ima.fits] when the first renaming raises
    [FileNotFoundError]; nothing else is changed. *)
Theorem X15_clean_up_loses_the_ima {C : Type}
    (os : platform) (fs : gmap string C) (a : C) :
  fs !! "ibohbfb9q_ima.fits" = Some a ->
  fs !! "ibohbfb9q_ima_ima.fits" = None ->
  clean_up os fs
  = (delete "ibohbfb9q_ima.fits" fs,
     Some (FileNotFoundError "ibohbfb9q_ima_ima.fits")).
Proof.
  intros Ha Hb. unfold clean_up. cbn [run_statements].
  unfold os_remove at 1. rewrite Ha. unfold os_rename at 1.
  by rewrite lookup_delete_ne, Hb by done.
Qed.

Lemma X15_witness :
  clean_up Unix calwf3_left_nothing
  = (delete "ibohbfb9q_ima.fits" calwf3_left_nothing,
     Some (FileNotFoundError "ibohbfb9q_ima_ima.fits")).
Proof.
  apply (X15_clean_up_loses_the_ima Unix calwf3_left_nothing 3%nat);
    reflexivity.
Defined.

(** X16.  Keeping the originals.  When the pipeline's IMA and FLT are both
    there (and, on Windows, no [_orig] file is in the way), the two
    renamings succeed: the files are found under their [_orig] names with
    their contents, the names [ibohbfb9q_ima.fits] and
    [ibohbfb9q_flt.fits] are free for calwf3, and no other file is
    touched. *)
Theorem X16_keep_originals {C : Type}
    (os : platform) (fs : gmap string C) (a b : C) :
  fs !! "ibohbfb9q_ima.fits" = Some a ->
  fs !! "ibohbfb9q_flt.fits" = Some b ->
  (os = Windows ->
   fs !! "ibohbfb9q_ima_orig.fits" = None
   /\ fs !! "ibohbfb9q_flt_orig.fits" = None) ->
  exists fs' : gmap string C,
    keep_originals os fs = (fs', None)
    /\ fs' !! "ibohbfb9q_ima_orig.fits" = Some a
    /\ fs' !! "ibohbfb9q_flt_orig.fits" = Some b
    /\ fs' !! "ibohbfb9q_ima.fits" = None
    /\ fs' !! "ibohbfb9q_flt.fits" = None
    /\ forall p : string,
         p <> "ibohbfb9q_ima.fits" -> p <> "ibohbfb9q_flt.fits" ->
         p <> "ibohbfb9q_ima_orig.fits" -> p <> "ibohbfb9q_flt_orig.fits" ->
         fs' !! p = fs !! p.
Proof.
  intros Ha Hb Horig.
  exists (<["ibohbfb9q_flt_orig.fits" := b]>
            (delete "ibohbfb9q_flt.fits"
               (<["ibohbfb9q_ima_orig.fits" := a]>
                  (delete "ibohbfb9q_ima.fits" fs)))).
  split.
  - unfold keep_originals. cbn [run_statements]. unfold os_rename at 1.
    rewrite Ha.
    replace (match os with Unix | _ => _ end)
      with (@inr os_error _
              (<["ibohbfb9q_ima_orig.fits" := a]>
                 (delete "ibohbfb9q_ima.fits" fs))).
    + unfold os_rename.
      rewrite lookup_insert_ne, lookup_delete_ne, Hb by done.
      rewrite lookup_insert_ne, lookup_delete_ne by done.
      destruct os; [by destruct (fs !! "ibohbfb9q_flt_orig.fits")|].
      destruct Horig as [_ ->]; done.
    + destruct os; [by destruct (fs !! "ibohbfb9q_ima_orig.fits")|].
      destruct Horig as [-> _]; done.
  - split; [by simplify_map_eq|]. split; [by simplify_map_eq|].
    split; [by simplify_map_eq|]. split; [by simplify_map_eq|].
    intros p ? ? ? ?. by simplify_map_eq.
Qed.

Lemma X16_witness :
  exists fs' : gmap string nat,
    keep_originals Windows after_pipeline = (fs', None)
    /\ fs' !! "ibohbfb9q_ima_orig.fits" = Some 1%nat
    /\ fs' !! "ibohbfb9q_flt_orig.fits" = Some 2%nat
    /\ fs' !! "ibohbfb9q_ima.fits" = None
    /\ fs' !! "ibohbfb9q_flt.fits" = None
    /\ forall p : string,
         p <> "ibohbfb9q_ima.fits" -> p <> "ibohbfb9q_flt.fits" ->
         p <> "ibohbfb9q_ima_orig.fits" -> p <> "ibohbfb9q_flt_orig.fits" ->
         fs' !! p = after_pipeline !! p.
Proof.
  apply (X16_keep_originals Windows after_pipeline); try reflexivity.
  intros _. split; reflexivity.
Defined.

(** ** The median splits the region *)

Lemma num_leb_refl (x : num) : num_leb x x = true.
Proof. destruct x as [q|]; [|done]. apply bool_decide_eq_true, Qcle_refl. Qed.

Lemma np_sort_strongly_sorted (l : list num) :
  StronglySorted (fun a b => num_leb a b = true) (np_sort l).
Proof.
  apply Sorted_StronglySorted; [|apply np_sort_sorted].
  intros x y z. apply num_leb_trans.
Qed.

(** In a sorted list nothing up to position [i] is above the value at
    [i], and nothing from [i] on is below it. *)
Lemma sorted_take_le (s : list num) :
  StronglySorted (fun a b => num_leb a b = true) s ->
  forall i : nat, (i < length s)%nat ->
  Forall (fun x => num_leb x (nth i s NaN) = true) (take (S i) s).
Proof.
  induction 1 as [|x s Hs IH Hx]; intros i Hi; [simpl in Hi; lia|].
  destruct i as [|i]; cbn [take nth].
  - rewrite take_0. repeat constructor. apply num_leb_refl.
  - simpl in Hi. constructor; [|apply IH; lia].
    apply (proj1 (List.Forall_nth _ _) Hx). lia.
Qed.

Lemma sorted_drop_ge (s : list num) :
  StronglySorted (fun a b => num_leb a b = true) s ->
  forall i : nat, (i < length s)%nat ->
  Forall (fun x => num_leb (nth i s NaN) x = true) (drop i s).
Proof.
  induction 1 as [|x s Hs IH Hx]; intros i Hi; [simpl in Hi; lia|].
  destruct i as [|i]; cbn [drop nth].
  - constructor; [apply num_leb_refl|done].
  - simpl in Hi. apply IH. lia.
Qed.

Lemma sorted_nth_le (s : list num) :
  StronglySorted (fun a b => num_leb a b = true) s ->
  forall j i : nat, (j <= i)%nat -> (i < length s)%nat ->
  num_leb (nth j s NaN) (nth i s NaN) = true.
Proof.
  induction 1 as [|x s Hs IH Hx]; intros j i Hji Hi; [simpl in Hi; lia|].
  simpl in Hi. destruct j as [|j], i as [|i]; cbn [nth]; try lia.
  - apply num_leb_refl.
  - apply (proj1 (List.Forall_nth _ _) Hx). lia.
  - apply IH; lia.
Qed.

Lemma filter_length_Forall (f : num -> bool) (l : list num) :
  Forall (fun x => f x = true) l -> length (List.filter f l) = length l.
Proof.
  induction 1 as [|x l Hx _ IH]; [done|]. cbn [List.filter]. rewrite Hx.
  cbn [length]. by rewrite IH.
Qed.

Lemma filter_length_take (f : num -> bool) (s : list num) (k : nat) :
  Forall (fun x => f x = true) (take k s) ->
  (length (take k s) <= length (List.filter f s))%nat.
Proof.
  intros Hk. rewrite <- (take_drop k s) at 2.
  rewrite List.filter_app, length_app, (filter_length_Forall f (take k s)) by done.
  lia.
Qed.

Lemma filter_length_drop (f : num -> bool) (s : list num) (k : nat) :
  Forall (fun x => f x = true) (drop k s) ->
  (length (drop k s) <= length (List.filter f s))%nat.
Proof.
  intros Hk. rewrite <- (take_drop k s) at 2.
  rewrite List.filter_app, length_app, (filter_length_Forall f (drop k s)) by done.
  lia.
Qed.

Lemma filter_length_Permutation (f : num -> bool) (l l' : list num) :
  l ≡ₚ l' -> length (List.filter f l) = length (List.filter f l').
Proof.
  induction 1 as [|x l l' _ IH|x y l|l l' l'' _ IH1 _ IH2]; cbn [List.filter].
  - done.
  - destruct (f x); cbn [length]; by rewrite IH.
  - by destruct (f x), (f y).
  - by rewrite IH1.
Qed.

Lemma mean2_between (a b : Qc) :
  (a <= b)%Qc -> (a <= (a + b) / 2)%Qc /\ ((a + b) / 2 <= b)%Qc.
Proof.
  intros Hab. assert (0 < 2)%Qc as H2 by done.
  split; apply (Qcmult_le_mono_pos_r _ _ 2 H2).
  - replace ((a + b) / 2 * 2)%Qc with (a + b)%Qc by (field; done).
    replace (a * 2)%Qc with (a + a)%Qc by ring.
    by apply Qcplus_le_mono_l.
  - replace ((a + b) / 2 * 2)%Qc with (a + b)%Qc by (field; done).
    replace (b * 2)%Qc with (b + b)%Qc by ring.
    by apply Qcplus_le_mono_r.
Qed.

Lemma Forall_num_leb_trans_r (y z : num) (l : list num) :
  num_leb y z = true ->
  Forall (fun x => num_leb x y = true) l ->
  Forall (fun x => num_leb x z = true) l.
Proof.
  intros Hyz Hl. eapply Forall_impl; [exact Hl|].
  intros x Hxy. by apply (num_leb_trans x y z).
Qed.

Lemma Forall_num_leb_trans_l (y z : num) (l : list num) :
  num_leb z y = true ->
  Forall (fun x => num_leb y x = true) l ->
  Forall (fun x => num_leb z x = true) l.
Proof.
  intros Hzy Hl. eapply Forall_impl; [exact Hl|].
  intros x Hyx. by apply (num_leb_trans z y x).
Qed.

(** A defined median has at least half of the values at or below it and
    at least half at or above it. *)
Lemma np_median_splits (l : list num) (m : Qc) :
  np_median l = Fin m ->
  (length l <= 2 * length (List.filter (fun x => num_leb x (Fin m)) l))%nat
  /\ (length l <= 2 * length (List.filter (fun x => num_leb (Fin m) x) l))%nat.
Proof.
  unfold np_median. destruct (existsb is_nan l); [done|].
  destruct (Nat.eqb_spec (length l) 0) as [|Hpos]; [done|].
  rewrite !(filter_length_Permutation _ l (np_sort l)) by by rewrite np_sort_perm.
  pose proof (np_sort_strongly_sorted l) as Hs.
  pose proof (np_sort_length l) as Hlen.
  set (s := np_sort l) in *. set (n := length l) in *.
  assert (n / 2 < n)%nat as Hhalf by (apply Nat.div_lt; lia).
  pose proof (Nat.div_mod_eq n 2) as Hdiv.
  pose proof (Nat.mod_upper_bound n 2 ltac:(lia)) as Hrem.
  destruct (Nat.odd n) eqn:Hodd.
  - intros Hm.
    pose proof (sorted_take_le s Hs (n / 2) ltac:(lia)) as Hle.
    pose proof (sorted_drop_ge s Hs (n / 2) ltac:(lia)) as Hge.
    rewrite Hm in Hle, Hge.
    apply filter_length_take in Hle. apply filter_length_drop in Hge.
    rewrite length_take in Hle. rewrite length_drop in Hge.
    change (List.filter (num_leb (Fin m)) s)
      with (List.filter (fun x => num_leb (Fin m) x) s) in Hge.
    lia.
  - assert (n mod 2 = 0)%nat as Hmod.
    { rewrite <- Nat.negb_even, negb_false_iff in Hodd.
      apply Nat.even_spec in Hodd as [k ->].
      by rewrite Nat.mul_comm, Nat.Div0.mod_mul. }
    assert (1 <= n / 2)%nat as H1 by lia.
    pose proof (sorted_take_le s Hs (n / 2 - 1) ltac:(lia)) as Hle.
    pose proof (sorted_drop_ge s Hs (n / 2) ltac:(lia)) as Hge.
    pose proof (sorted_nth_le s Hs (n / 2 - 1) (n / 2) ltac:(lia) ltac:(lia))
      as Hab.
    destruct (nth (n / 2 - 1) s NaN) as [a|] eqn:Ha; [|done].
    destruct (nth (n / 2) s NaN) as [b|] eqn:Hb; [|done].
    cbn [mean2]. intros [= <-].
    assert (a <= b)%Qc as Hab' by by apply bool_decide_eq_true in Hab.
    destruct (mean2_between a b Hab') as [Hlo Hhi].
    apply (Forall_num_leb_trans_r _ (Fin ((a + b) / 2)%Qc)) in Hle;
      [|by apply bool_decide_eq_true].
    apply (Forall_num_leb_trans_l _ (Fin ((a + b) / 2)%Qc)) in Hge;
      [|by apply bool_decide_eq_true].
    apply filter_length_take in Hle. apply filter_length_drop in Hge.
    rewrite length_take in Hle. rewrite length_drop in Hge.
    change (List.filter (num_leb (Fin ((a + b) / 2)%Qc)) s)
      with (List.filter (fun x => num_leb (Fin ((a + b) / 2)%Qc) x) s) in Hge.
    lia.
Qed.

(** X17.  Every defined median the cell prints for a read is a median of
    that read's region in the counting sense: at least half of the pixels
    of the region are at or below it, and at least half are at or above
    it. *)
Theorem X17_printed_median_splits_region (sr : region) (ima : HDUList) :
  has_reads ima ->
  exists (out : HDUList) (diag : list diagnostic),
    normalize sr ima = Ok (out, diag)
    /\ forall (k : Z) (m : Qc),
         (k, Fin m) ∈ diag ->
         exists data : array,
           sci ima k = Ok data
           /\ (length (region_values sr data)
               <= 2 * length (List.filter (fun x => num_leb x (Fin m))
                                (region_values sr data)))%nat
           /\ (length (region_values sr data)
               <= 2 * length (List.filter (fun x => num_leb (Fin m) x)
                                (region_values sr data)))%nat.
Proof.
  intros Hreads. exists (normalized sr ima), (printed sr ima).
  split; [by apply normalize_Ok|].
  intros k m (data & _ & Hdata & Hm)%elem_of_printed.
  exists data. split; [done|]. by apply np_median_splits.
Qed.

Lemma X17_witness :
  exists (out : HDUList) (diag : list diagnostic),
    normalize middle_row ramp_10_6_10 = Ok (out, diag)
    /\ forall (k : Z) (m : Qc),
         (k, Fin m) ∈ diag ->
         exists data : array,
           sci ramp_10_6_10 k = Ok data
           /\ (length (region_values middle_row data)
               <= 2 * length (List.filter (fun x => num_leb x (Fin m))
                                (region_values middle_row data)))%nat
           /\ (length (region_values middle_row data)
               <= 2 * length (List.filter (fun x => num_leb (Fin m) x)
                                (region_values middle_row data)))%nat.
Proof.
  apply (X17_printed_median_splits_region middle_row ramp_10_6_10).
  unfold has_reads, visited. simpl. lia.
Defined.
